(** * The ride-sharing experiment harness of [generate_all_data.py]

    A shallow embedding of the script that drives the simulations of the
    manuscript: the request generator, the normalisation of the request
    rate, the sweep over one hundred request rates with its pickle
    checkpoint, and the list of experiments of the [__main__] block.

    Conventions.
    - A floating-point number of the script (a rate, a time, a sweep value)
      is the rational number that it denotes.  An arithmetic operation gives
      its exact result rounded; the rounding is a field of the world, and
      [b64] is the one of binary64, to the nearest with ties to even.
      Infinities and NaN are not numbers here: no operation overflows, and a
      division by zero raises [ZeroDivisionError], as it does for Python's
      own numbers (a numpy number gives [inf] with a warning instead).
    - A networkx graph is the insertion-ordered dictionary from a node to
      its neighbours.
    - The file system, the two pseudo-random sources ([random] and
      [numpy.random]) and the sequence of observable actions are the fields
      of an explicit [World] threaded through every effectful function;
      an exception leaves the world as it was when raised. *)

From Stdlib Require Import QArith Qabs Lqa Qround Qpower.
From stdpp Require Import gmap strings list fin_maps pretty.

#[local] Open Scope string_scope.
#[local] Open Scope Z_scope.
#[local] Open Scope list_scope.

(** ** Nodes and graphs *)

(** Node labels of the topologies of the script: integers (rings, line,
    star, street networks) and pairs of integers (grids). *)
Inductive node : Type :=
  | NInt (n : Z)
  | NPair (i j : Z).

#[global] Instance node_eq_dec : EqDecision node.
Proof. solve_decision. Defined.

Definition node_code (v : node) : Z + Z * Z :=
  match v with NInt n => inl n | NPair i j => inr (i, j) end.

Definition node_decode (c : Z + Z * Z) : node :=
  match c with inl n => NInt n | inr (i, j) => NPair i j end.

#[global] Instance node_countable : Countable node.
Proof.
  apply (inj_countable' node_code node_decode).
  intros []; reflexivity.
Defined.

(** [G._adj]: the items of the dictionary from a node to its neighbours, in
    the order in which the nodes were added. *)
Definition Graph : Type := list (node * list node).

(** [nx.Graph()] *)
#[global] Instance graph_empty : Empty Graph := [].

(** [G.nodes()]: the keys in the order of their insertion.  A key that
    occurs again in the items is the key already met. *)
Definition nodes (G : Graph) : list node :=
  reverse (remove_dups (reverse G.*1)).

Definition neighbors (G : Graph) (u : node) : list node :=
  match list_find (λ e : node * list node, e.1 = u) G with
  | Some (_, e) => e.2
  | None => []
  end.

Definition add_node (u : node) (G : Graph) : Graph :=
  if decide (u ∈ G.*1) then G else G ++ [(u, [])].

Definition add_half_edge (u v : node) (G : Graph) : Graph :=
  if decide (u ∈ G.*1)
  then (λ e : node * list node,
          if decide (e.1 = u)
          then (e.1, if decide (v ∈ e.2) then e.2 else e.2 ++ [v])
          else e) <$> G
  else G ++ [(u, [v])].

(** [G.add_edge(u, v)] of an undirected graph. *)
Definition add_edge (G : Graph) (e : node * node) : Graph :=
  add_half_edge e.2 e.1 (add_half_edge e.1 e.2 G).

Definition add_edges_from (es : list (node * node)) (G : Graph) : Graph :=
  foldl add_edge G es.

Definition add_nodes_from (vs : list node) (G : Graph) : Graph :=
  foldl (λ G v, add_node v G) G vs.

Definition remove_node (u : node) (G : Graph) : Graph :=
  (λ e : node * list node, (e.1, filter (λ w, w ≠ u) e.2))
    <$> filter (λ e : node * list node, e.1 ≠ u) G.

Definition int_nodes (n : nat) : list node := (λ i, NInt (Z.of_nat i)) <$> seq 0 n.

(** [nx.cycle_graph(n)]: nodes 0..n-1, consecutive nodes joined, and the
    last node joined to the first. *)
Definition cycle_graph (n : nat) : Graph :=
  let vs := int_nodes n in
  add_edges_from (zip vs (drop 1 vs ++ take 1 vs)) (add_nodes_from vs ∅).

(** [nx.grid_graph((n,))]: the path on nodes 0..n-1. *)
Definition path_graph (n : nat) : Graph :=
  let vs := int_nodes n in
  add_edges_from (zip vs (drop 1 vs)) (add_nodes_from vs ∅).

(** [nx.star_graph(n)]: the hub 0 joined to the n leaves 1..n. *)
Definition star_graph (n : nat) : Graph :=
  let vs := int_nodes (S n) in
  add_edges_from ((λ v, (NInt 0, v)) <$> drop 1 vs) (add_nodes_from vs ∅).

Definition pair_nodes (rows cols : list nat) : list node :=
  i ← rows; (λ j, NPair (Z.of_nat i) (Z.of_nat j)) <$> cols.

(** [nx.grid_2d_graph(m, n)]: node (i, j) joined to (i-1, j) and (i, j-1). *)
Definition grid_2d_graph (m n : nat) : Graph :=
  let P (i j : nat) := NPair (Z.of_nat i) (Z.of_nat j) in
  add_edges_from
    ((i ← seq 0 (m - 1); (λ j, (P (S i) j, P i j)) <$> seq 0 n) ++
     (i ← seq 0 m; (λ j, (P i (S j), P i j)) <$> seq 0 (n - 1)))
    (add_nodes_from (pair_nodes (seq 0 m) (seq 0 n)) ∅).

(** [nx.triangular_lattice_graph(m, n)]: m rows and n columns of triangles,
    on the rectangular grid of (n+1)/2 + 1 columns and m + 1 rows with
    alternating diagonals; for odd n the last node of every odd row is
    removed. *)
Definition triangular_lattice_graph (m n : nat) : Graph :=
  if decide (m = 0%nat ∨ n = 0%nat) then ∅ else
  let P (i j : nat) := NPair (Z.of_nat i) (Z.of_nat j) in
  let N := ((n + 1) / 2)%nat in
  let rows := seq 0 (S m) in
  let odd_rows := filter (λ j, Nat.odd j) (seq 0 m) in
  let even_rows := filter (λ j, Nat.even j) (seq 0 m) in
  let H :=
    add_edges_from
      ((j ← rows; (λ i, (P i j, P (S i) j)) <$> seq 0 N) ++
       (j ← seq 0 m; (λ i, (P i j, P i (S j))) <$> seq 0 (S N)) ++
       (j ← odd_rows; (λ i, (P i j, P (S i) (S j))) <$> seq 0 N) ++
       (j ← even_rows; (λ i, (P (S i) j, P i (S j))) <$> seq 0 N)) ∅ in
  if Nat.odd n
  then foldr remove_node H ((λ j, P N j) <$> filter (λ j, Nat.odd j) rows)
  else H.

(** ** Exceptions *)

Inductive exn : Type :=
  | NameError (name : string)
  | FileNotFoundError (path : string)
  | PermissionError (path : string)
  | UnpicklingError (path : string)
  | KeyError
  | ValueError (msg : string)
  | ZeroDivisionError
  | NetworkXPointlessConcept
  | NetworkXError (msg : string).

(** ** Shortest paths *)

(** One breadth-first level: the nodes adjacent to the frontier that have
    not been seen yet, in the order of their discovery. *)
Definition expand (G : Graph) (seen : gset node) (frontier : list node)
  : gset node * list node :=
  foldl (λ (acc : gset node * list node) v,
           if decide (v ∈ acc.1) then acc else ({[v]} ∪ acc.1, acc.2 ++ [v]))
        (seen, []) (frontier ≫= neighbors G).

Fixpoint bfs_levels (G : Graph) (fuel : nat) (seen : gset node)
    (frontier : list node) (d : nat) : list (node * nat) :=
  match fuel with
  | O => []
  | S fuel' =>
      match frontier with
      | [] => []
      | _ =>
          ((λ v, (v, d)) <$> frontier) ++
          bfs_levels G fuel' (expand G seen frontier).1
                     (expand G seen frontier).2 (S d)
      end
  end.

(** [nx.single_source_shortest_path_length(G, u)]: every node reachable
    from [u] with its hop distance.  A level is never empty, so there are
    at most as many levels as nodes. *)
Definition single_source_shortest_path_length (G : Graph) (u : node)
  : list (node * nat) :=
  bfs_levels G (length (nodes G)) {[u]} [u] 0.

Definition is_connected (G : Graph) : bool :=
  match nodes G with
  | [] => false
  | u :: _ =>
      bool_decide (length (single_source_shortest_path_length G u)
                   = length (nodes G))
  end.

Definition sum_nat (l : list nat) : nat := foldr Nat.add 0%nat l.

(** [nx.average_shortest_path_length(G)] without weights: the sum of the
    hop distances over all ordered pairs of nodes, divided by n(n-1).  The
    quotient is the exact one; the caller has it as a floating-point
    number. *)
Definition average_shortest_path_length (G : Graph) : exn + Q :=
  let n := length (nodes G) in
  if decide (n = 0%nat) then inl NetworkXPointlessConcept
  else if decide (n = 1%nat) then inr 0%Q
  else if negb (is_connected G) then inl (NetworkXError "Graph is not connected.")
  else
    let s := sum_nat (u ← nodes G; (single_source_shortest_path_length G u).*2) in
    inr (inject_Z (Z.of_nat s) / inject_Z (Z.of_nat (n * (n - 1))))%Q.

(** ** Floating-point numbers *)

Definition pow2 (e : Z) : Q := Qpower 2 e.

(** The integer nearest to [q], the even one of the two when [q] lies
    halfway. *)
Definition rne (q : Q) : Z :=
  let f := Qfloor q in
  match Qcompare (q - inject_Z f) (1 # 2) with
  | Lt => f
  | Gt => f + 1
  | Eq => if Z.even f then f else f + 1
  end.

(** The exponent [e] of a positive [q]: [2^e <= q < 2^(e+1)]. *)
Definition ilog2 (q : Q) : Z :=
  let a := Z.log2 (Qnum q) - Z.log2 (Zpos (Qden q)) in
  if Qle_bool (pow2 a) q then a else a - 1.

(** The binary64 number nearest to [q]: 53 significant bits, exponents from
    -1022 on, subnormal numbers below; ties go to the even significand. *)
Definition b64 (q : Q) : Q :=
  match Qcompare q 0 with
  | Eq => 0%Q
  | Gt => let ulp := pow2 (Z.max (ilog2 q) (-1022) - 52) in
          Qred (inject_Z (rne (q / ulp)) * ulp)
  | Lt => let ulp := pow2 (Z.max (ilog2 (- q)) (-1022) - 52) in
          Qred (- (inject_Z (rne (- q / ulp)) * ulp))
  end.

(** The exponent of the unit in the last place of a positive [q], and the
    multiple of that unit nearest to [q]: what [b64] computes, before the
    fraction is reduced. *)
Definition ulp_exp (q : Q) : Z := Z.max (ilog2 q) (-1022) - 52.

Definition nearest (q : Q) : Q :=
  (inject_Z (rne (q / pow2 (ulp_exp q))) * pow2 (ulp_exp q))%Q.

(** ** Requests and the graph wrapper *)

(** Modelled from the spec: the [Request] of the [toysimulations] package,
    built positionally as [Request(req_idx, t, orig, dest)]; the spec names
    its fields sequence_index, arrival_time, origin and destination. *)
Record Request : Type := mkRequest {
  sequence_index : Z;
  arrival_time : Q;
  origin : node;
  destination : node
}.

(** Modelled from the spec: the [Network] of the [toysimulations] package,
    the wrapper of a graph together with its topology tag. *)
Record Network : Type := mkNetwork {
  net_graph : Graph;
  net_type : string
}.

(** ** Python dictionaries keyed by a sweep value

    Insertion order is kept, and assigning to a key that is present
    replaces its value in place. *)
Fixpoint dict_update {V : Type} (k : Q) (f : option V → V) (d : list (Q * V))
  : list (Q * V) :=
  match d with
  | [] => [(k, f None)]
  | (k', v) :: d' =>
      if Qeq_bool k' k then (k', f (Some v)) :: d'
      else (k', v) :: dict_update k f d'
  end.

Definition dict_keys {V : Type} (d : list (Q * V)) : list Q := d.*1.

(** No key of the list is equal, as a number, to a later one. *)
Fixpoint distinct_keys (l : list Q) : bool :=
  match l with
  | [] => true
  | x :: l' => forallb (λ y, negb (Qeq_bool x y)) l' && distinct_keys l'
  end.

Section Harness.

(** The payloads of the engine are opaque to the harness. *)
Context {req_data insertion_data : Type}.

(** The inner dictionary [result[x]]: the keys ['req_data'] and
    ['insertion_data'], each present or not. *)
Record Entry : Type := mkEntry {
  e_req_data : option req_data;
  e_insertion_data : option insertion_data
}.

Definition empty_entry : Entry := mkEntry None None.

Abbreviation Store := (list (Q * Entry)).

(** ** The world *)

Inductive file : Type :=
  | FGraph (G : Graph)
  | FStore (s : Store)
  | FAllGs (all_Gs : gmap Z (gmap Z Graph))
  | FOther.

Inductive event : Type :=
  | EvPrint (s : string)
  | EvPrintSimulating (x : Q)
  | EvNetwork (G : Graph) (network_type : string)
  | EvAvgShortestPath (G : Graph)
  | EvZeroDetourBus (nG : Network) (G : Graph) (num_reqs : Z) (req_rate : Q)
                    (network_type : string) (start : node)
  | EvSimulateAll (reqs : list Request)
  | EvDump (path : string).

Record World : Type := mkWorld {
  py_tape : nat → nat;             (* outputs of the [random] module *)
  py_pos : nat;
  np_tape : nat → N * positive;    (* standard exponential variates *)
  np_pos : nat;
  round : Q → Q;                   (* the rounding of the arithmetic *)
  fs : gmap string file;
  write_error : string → option exn; (* what opening a path for writing raises *)
  trace : list event
}.

(** An effectful computation: the world after it, and an exception or a
    value. *)
Definition M (A : Type) : Type := World → World * (exn + A).

#[global] Instance M_ret : MRet M := λ A a w, (w, inr a).
#[global] Instance M_bind : MBind M := λ A B f m w,
  match m w with
  | (w', inr a) => f a w'
  | (w', inl e) => (w', inl e)
  end.

Definition raise {A : Type} (e : exn) : M A := λ w, (w, inl e).

(** The world with more actions in its trace. *)
Definition logged (w : World) (es : list event) : World :=
  mkWorld (py_tape w) (py_pos w) (np_tape w) (np_pos w) (round w) (fs w)
          (write_error w) (trace w ++ es).

Definition log (e : event) : M unit := λ w, (logged w [e], inr ()).

Definition lift_exn {A : Type} (r : exn + A) : M A := λ w, (w, r).

(** The relation [R] holds between the world before a computation and the
    world after it. *)
Definition keeps (R : World → World → Prop) {A : Type} (m : M A) : Prop :=
  ∀ w, R w (m w).1.

(** The files are the same before and after. *)
Definition same_files (w w' : World) : Prop := fs w' = fs w.

(** [os.path.exists(path)] *)
Definition path_exists (path : string) : M bool := λ w,
  (w, inr (bool_decide (is_Some (fs w !! path)))).

(** [with open(path, 'wb') as f: pickle.dump(s, f)], where [s] is the
    copy [picklable_res] of the store.  When the path cannot be opened for
    writing (a missing directory, a path that is not writable) [open]
    raises and nothing is written; otherwise the file is replaced as a
    whole. *)
Definition pickle_dump (path : string) (s : Store) : M unit := λ w,
  match write_error w path with
  | Some e => (w, inl e)
  | None =>
      (mkWorld (py_tape w) (py_pos w) (np_tape w) (np_pos w) (round w)
               (<[path := FStore s]> (fs w)) (write_error w)
               (trace w ++ [EvDump path]),
       inr ())
  end.

Definition read_file (path : string) : M file := λ w,
  match fs w !! path with
  | Some f => (w, inr f)
  | None => (w, inl (FileNotFoundError path))
  end.

(** [nx.read_gpickle(path)] of a file that holds a graph.  A file that
    holds anything else is outside the model: the script would go on with
    whatever object is pickled there, and here the load is an error. *)
Definition read_gpickle (path : string) : M Graph :=
  f ← read_file path;
  match f with
  | FGraph G => mret G
  | _ => raise (UnpicklingError path)
  end.

(** ** Floating-point arithmetic *)

(** The floating-point number for the exact result [q] of an operation
    under the rounding [rnd]: the rounding gives the magnitude, and the
    sign is the one of [q]. *)
Definition fround (rnd : Q → Q) (q : Q) : Q :=
  match Qcompare q 0 with
  | Eq => 0%Q
  | Gt => Qabs (rnd q)
  | Lt => (- Qabs (rnd (- q)))%Q
  end.

(** The rounding keeps the order of the exact results, and a
    floating-point number is its own rounding; both hold of binary64. *)
Definition rounding_ok (rnd : Q → Q) : Prop :=
  (∀ x y : Q, (x <= y)%Q → (fround rnd x <= fround rnd y)%Q)
  ∧ (∀ x : Q, (fround rnd (fround rnd x) == fround rnd x)%Q).

(** An operation whose exact result is [q]. *)
Definition fl (q : Q) : M Q := λ w, (w, inr (fround (round w) q)).

(** [a / b] *)
Definition fdiv (a b : Q) : M Q :=
  if Qeq_bool b 0 then raise ZeroDivisionError else fl (a / b)%Q.

(** ** The random sources *)

(** The world after [a] more draws of [random] and [b] more of
    [numpy.random]. *)
Definition drawn (w : World) (a b : nat) : World :=
  mkWorld (py_tape w) (py_pos w + a) (np_tape w) (np_pos w + b) (round w)
          (fs w) (write_error w) (trace w).

(** The next integer below [n] of the [random] module. *)
Definition randbelow (n : nat) : M nat := λ w,
  (drawn w 1 0, inr (py_tape w (py_pos w) `mod` n)%nat).

(** What the [i]-th next call of [randbelow(n)] returns in the world [w]. *)
Definition draw_at (n : nat) (w : World) (i : nat) : nat :=
  (py_tape w (py_pos w + i) `mod` n)%nat.

(** [pool[j] = pool[n-1]] followed by the shrinking of the pool by one: the
    last element takes the place of the chosen one. *)
Definition pool_without (pool : list node) (j : nat) : list node :=
  match last pool with
  | Some z => take (length pool - 1) (<[j := z]> pool)
  | None => pool
  end.

(** The selection loop of [random.sample] for a small population: [k]
    times, an index below the size of the pool is drawn and its element
    leaves the pool. *)
Fixpoint sample_pool (pool : list node) (k : nat) : M (list node) :=
  match k with
  | O => mret []
  | S k' =>
      j ← randbelow (length pool);
      match pool !! j with
      | Some v =>
          rest ← sample_pool (pool_without pool j) k';
          mret (v :: rest)
      | None => raise (ValueError "empty range for randrange()")
      end
  end.

(** How often in a row the model redraws a position that is taken.  The
    loop of the code has no bound; a run of more repeats than this, which
    no generator produces, is cut short with the first free position. *)
Definition patience : nat := 64.

Definition first_free (n : nat) (selected : list nat) : nat :=
  default 0%nat (head (filter (λ j, j ∉ selected) (seq 0 n))).

(** [while j in selected: j = randbelow(n)] *)
Fixpoint redraw (fuel n : nat) (selected : list nat) (j : nat) : M nat :=
  if decide (j ∈ selected) then
    match fuel with
    | O => mret (first_free n selected)
    | S fuel' => j' ← randbelow n; redraw fuel' n selected j'
    end
  else mret j.

(** The positions that the loop [while j in selected] looks at in the
    world [w]: the one it starts from, then those of the next draws. *)
Definition candidate (n j : nat) (w : World) (i : nat) : nat :=
  match i with
  | O => j
  | S i' => (py_tape w (py_pos w + i') `mod` n)%nat
  end.

(** The selection loop of [random.sample] for a large population: [k]
    times, a position is drawn, and drawn again while it is one of those
    selected before. *)
Fixpoint sample_reject (population : list node) (k : nat) (selected : list nat)
  : M (list node) :=
  match k with
  | O => mret []
  | S k' =>
      j0 ← randbelow (length population);
      j ← redraw patience (length population) selected j0;
      match population !! j with
      | Some v =>
          rest ← sample_reject population k' (j :: selected);
          mret (v :: rest)
      | None => raise (ValueError "empty range for randrange()")
      end
  end.

(** The size up to which [random.sample] copies the population into a
    pool, for a sample of at most five elements. *)
Definition setsize : nat := 21.

(** [random.sample(population, k)] for [k] of at most five: [k] elements at
    distinct positions of the population, a node view being read as the
    tuple of its nodes. *)
Definition random_sample (population : list node) (k : nat) : M (list node) :=
  if decide (k ≤ length population)%nat
  then if decide (length population ≤ setsize)%nat
       then sample_pool population k
       else sample_reject population k []
  else raise (ValueError "Sample larger than population or is negative").

(** The [i]-th standard exponential variate of [numpy.random]: a
    floating-point number that is not negative. *)
Definition variate (w : World) (i : nat) : Q :=
  fround (round w) (Z.of_N (np_tape w i).1 # (np_tape w i).2).

(** [np.random.exponential(scale)]: the scale times the next standard
    variate. *)
Definition np_exponential (scale : Q) : M Q := λ w,
  if Qlt_le_dec scale 0 then (w, inl (ValueError "scale < 0"))
  else (drawn w 0 1, inr (fround (round w) (scale * variate w (np_pos w)))).

(** The [k]-th inter-arrival time drawn from the world [w] on at the rate
    [req_rate]. *)
Definition inter_arrival (req_rate : Q) (w : World) (k : nat) : Q :=
  fround (round w) (fround (round w) (1 / req_rate) * variate w (np_pos w + k)).

(** [t] after the additions [t += f 0], ..., [t += f (i-1)], each rounded
    by [rnd]. *)
Fixpoint running_sum_from (rnd : Q → Q) (f : nat → Q) (t : Q) (i : nat) : Q :=
  match i with
  | O => t
  | S i' => rnd (running_sum_from rnd f t i' + f i')%Q
  end.

(** ** The request generator *)

(** The local variables [t] and [req_idx] of the generator. *)
Record GenState : Type := mkGenState {
  g_t : Q;
  g_req_idx : Z
}.

(** One resumption of [req_generator_uniform]: the loop test, and, when it
    holds, the body of the loop up to its [yield].  [None] is the end of the
    stream. *)
Definition gen_next (graph : Graph) (num_reqs : Z) (req_rate : Q) (s : GenState)
  : M (option (Request * GenState)) :=
  if decide (g_req_idx s < num_reqs) then
    od ← random_sample (nodes graph) 2;
    match od with
    | [orig; dest] =>
        scale ← fdiv 1 req_rate;
        delta_t ← np_exponential scale;
        t ← fl (g_t s + delta_t);
        let req_idx := g_req_idx s + 1 in
        mret (Some (mkRequest req_idx t orig dest, mkGenState t req_idx))
    | _ => raise (ValueError "not enough values to unpack")
    end
  else mret None.

(** The consumer asks for the next request until the stream ends. *)
Fixpoint drain (fuel : nat) (graph : Graph) (num_reqs : Z) (req_rate : Q)
    (s : GenState) : M (list Request) :=
  match fuel with
  | O => mret []
  | S fuel' =>
      r ← gen_next graph num_reqs req_rate s;
      match r with
      | None => mret []
      | Some (rq, s') =>
          rest ← drain fuel' graph num_reqs req_rate s';
          mret (rq :: rest)
      end
  end.

(** [req_generator_uniform(graph, num_reqs, req_rate)], consumed to its end:
    the generator starts with [t = 0] and [req_idx = 0], and [num_reqs]
    resumptions reach the end of the stream. *)
Definition req_generator_uniform (graph : Graph) (num_reqs : Z) (req_rate : Q)
  : M (list Request) :=
  drain (S (Z.to_nat num_reqs)) graph num_reqs req_rate (mkGenState 0 0).

(** ** One request rate *)

(** Modelled from the spec: the engine [ZeroDetourBus] of the
    [toysimulations] package.  It is built from the wrapped graph, the
    request stream, the topology tag and the start node, consumes the whole
    stream, and then exposes [req_data] and [insertion_data].  It is taken
    to be a function of these four: it raises nothing and touches neither
    the files nor the random sources. *)
Variable engine :
  Network → list Request → string → node → req_data * insertion_data.

(** The value of [x/2/l_avg] under the rounding [rnd], the rate normaliser
    of the spec. *)
Definition normalize (rnd : Q → Q) (x l_avg : Q) : Q :=
  fround rnd (fround rnd (x / 2) / l_avg).

Definition simulate_single_request_rate (G : Graph) (nG : Network) (x : Q)
    (network_type : string) (l_avg : Q) : M (req_data * insertion_data) :=
  let num_reqs := 10000 in
  half ← fdiv x 2;
  req_rate ← fdiv half l_avg;
  (* the arguments of [ZeroDetourBus]: the generator object (no code of it
     runs yet) and the start node *)
  st ← random_sample (nodes G) 1;
  match st with
  | start :: _ =>
      _ ← log (EvZeroDetourBus nG G num_reqs req_rate network_type start);
      _ ← log (EvPrintSimulating x);
      (* [sim.simulate_all_requests()] *)
      reqs ← req_generator_uniform G num_reqs req_rate;
      _ ← log (EvSimulateAll reqs);
      mret (engine nG reqs network_type start)
  | [] => raise (ValueError "list index out of range")
  end.

(** ** The sweep *)

(** [np.linspace(start, stop, num)] in binary64: the step is the rounded
    quotient of the rounded difference, the point [i] is [i * step + start]
    with both operations rounded, and the last point is set to [stop]. *)
Definition linspace (start stop : Q) (num : nat) : list Q :=
  let div := inject_Z (Z.of_nat (num - 1)) in
  let step := b64 (b64 (stop - start) / div) in
  (λ i : nat,
     if decide (i = (num - 1)%nat) then stop
     else b64 (b64 (inject_Z (Z.of_nat i) * step) + start)) <$> seq 0 num.

(** [list(np.linspace(0.1, 40, 100))], where [0.1] is the binary64 number
    of that literal. *)
Definition x_range : list Q := Eval vm_compute in linspace (b64 (1 # 10)) 40 100.

(** What a global name of the module can be bound to: a function that is
    called like [simulate_single_request_rate], or anything else. *)
Inductive pyobj : Type :=
  | PyFunction (f : Graph → Network → Q → string → Q → M (req_data * insertion_data))
  | PyOther.

(** The call [name(G, nG, x, network_type, l_avg)] of a name that is not a
    builtin: the name is looked up in the globals of the module when the
    call is executed. *)
Definition call_global (genv : gmap string pyobj) (name : string)
    (G : Graph) (nG : Network) (x : Q) (network_type : string) (l_avg : Q)
  : M (req_data * insertion_data) :=
  match genv !! name with
  | None => raise (NameError name)
  | Some (PyFunction f) => f G nG x network_type l_avg
  | Some PyOther => raise (ValueError "object is not callable with these arguments")
  end.

(** [result[x]['req_data'] = v] on the [defaultdict] of dictionaries. *)
Definition set_req_data (x : Q) (v : req_data) (result : Store) : Store :=
  dict_update x (λ o, mkEntry (Some v) (e_insertion_data (default empty_entry o)))
              result.

(** [result[x]['insertion_data'] = v] *)
Definition set_insertion_data (x : Q) (v : insertion_data) (result : Store) : Store :=
  dict_update x (λ o, mkEntry (e_req_data (default empty_entry o)) (Some v))
              result.

(** The body of the loop of [simulate_different_request_rates] for one [x];
    the value is the dictionary [result] after it. *)
Definition sweep_step (genv : gmap string pyobj) (G : Graph) (nG : Network)
    (network_type : string) (l_avg : Q) (pickle_path : string)
    (result : Store) (x : Q) : M Store :=
  rd ← call_global genv "simulate_simgle_request_rate" G nG x network_type l_avg;
  let result := set_req_data x rd.1 result in
  let result := set_insertion_data x rd.2 result in
  _ ← pickle_dump pickle_path result;
  mret result.

(** [for x in xs: ...] *)
Fixpoint sweep_loop (genv : gmap string pyobj) (G : Graph) (nG : Network)
    (network_type : string) (l_avg : Q) (pickle_path : string)
    (xs : list Q) (result : Store) : M Store :=
  match xs with
  | [] => mret result
  | x :: xs' =>
      result' ← sweep_step genv G nG network_type l_avg pickle_path result x;
      sweep_loop genv G nG network_type l_avg pickle_path xs' result'
  end.

(** [simulate_different_request_rates(G, pickle_path, network_type)] in a
    module whose global names are [genv].  The value is what the function
    returns: Python's [None] is [None]. *)
Definition simulate_different_request_rates (genv : gmap string pyobj)
    (G : Graph) (pickle_path : string) (network_type : string)
  : M (option Store) :=
  ex ← path_exists pickle_path;
  if (ex : bool) then
    _ ← log (EvPrint "pickle exists, doing nothing");
    mret None
  else
    _ ← log (EvNetwork G network_type);
    let nG := mkNetwork G network_type in
    _ ← log (EvAvgShortestPath G);
    l ← lift_exn (average_shortest_path_length G);
    l_avg ← fl l;
    _ ← sweep_loop genv G nG network_type l_avg pickle_path x_range [];
    mret None.

(** The actions of one turn of the loop at the sweep value [x] when the
    rate, the start node and the requests of the turn are [run]. *)
Definition turn_events (G : Graph) (nG : Network) (network_type : string)
    (pickle_path : string) (x : Q) (run : Q * node * list Request)
  : list event :=
  [EvZeroDetourBus nG G 10000 run.1.1 network_type run.1.2;
   EvPrintSimulating x; EvSimulateAll run.2; EvDump pickle_path].

(** The entry of the store for the data [rd] of the engine. *)
Definition full_entry (rd : req_data * insertion_data) : Entry :=
  mkEntry (Some rd.1) (Some rd.2).

(** The global names of the module: its imports and its three functions. *)
Definition module_globals : gmap string pyobj :=
  list_to_map
    (("simulate_single_request_rate", PyFunction simulate_single_request_rate) ::
     ((λ name, (name, PyOther)) <$>
        ["np"; "nx"; "defaultdict"; "random"; "pickle"; "os";
         "ZeroDetourBus"; "Stop"; "Request"; "Network";
         "req_generator_uniform"; "simulate_different_request_rates"])).

(** The module with the name that the loop calls bound to the function
    that the module defines under another spelling. *)
Definition repaired_globals : gmap string pyobj :=
  <["simulate_simgle_request_rate" :=
      PyFunction simulate_single_request_rate]> module_globals.
(** ** The experiments of the [__main__] block *)

(** Statements in sequence: an exception ends the sequence. *)
Fixpoint run_blocks (bs : list (M unit)) : M unit :=
  match bs with
  | [] => mret ()
  | b :: bs' => _ ← b; run_blocks bs'
  end.

(** One experiment: the announcement, the topology, the sweep and the
    closing message. *)
Definition experiment (genv : gmap string pyobj) (doing : string)
    (topology : M Graph) (pickle_path network_type done_ : string) : M unit :=
  _ ← log (EvPrint doing);
  G ← topology;
  _ ← simulate_different_request_rates genv G pickle_path network_type;
  log (EvPrint done_).

Definition street_network (name : string) : M Graph :=
  let graph_path := "../data/homogenized_networks/" +:+ name +:+ "/" in
  read_gpickle (graph_path +:+ "/G_homog.gpkl").

(** [with open(path, 'rb') as f: all_Gs = pickle.load(f)] *)
Definition load_all_Gs (path : string) : M (gmap Z (gmap Z Graph)) :=
  f ← read_file path;
  match f with
  | FAllGs all_Gs => mret all_Gs
  | _ => raise (UnpicklingError path)
  end.

(** One coarse-grained Berlin network: the graph is the second component of
    [all_Gs[coarse_graining_meters][target_edge_length]]. *)
Definition berlin_coarse (genv : gmap string pyobj) (all_Gs : gmap Z (gmap Z Graph))
    (coarse_graining_meters target_edge_length : Z) : M unit :=
  _ ← log (EvPrint ("Doing Berlin " +:+ pretty coarse_graining_meters +:+ " "
                      +:+ pretty target_edge_length));
  match all_Gs !! coarse_graining_meters ≫= (.!! target_edge_length) with
  | None => raise KeyError
  | Some G =>
      let pickle_path :=
        "../data/street_berlin_homogenized_coarse_graining_meters_"
        +:+ pretty coarse_graining_meters +:+ "_target_edge_length_"
        +:+ pretty target_edge_length +:+ ".pkl" in
      _ ← simulate_different_request_rates genv G pickle_path "novolcomp";
      mret ()
  end.

Definition many_berlins (genv : gmap string pyobj) : M unit :=
  let graph_path := "../data/homogenized_networks/berlin/" in
  all_Gs ← load_all_Gs (graph_path +:+ "/diff_coarse_graining/all_berlin.pkl");
  run_blocks ((λ p : Z * Z, berlin_coarse genv all_Gs p.1 p.2)
                <$> [(200, 400); (200, 600); (200, 800)]).

(** The experiments in the order of the script. *)
Definition experiments (genv : gmap string pyobj) : list (M unit) :=
  [ experiment genv "doing ring10" (mret (cycle_graph 10))
      "../data/ring_10.pkl" "ring" "done ring10";
    experiment genv "doing ring100" (mret (cycle_graph 101))
      "../data/ring_100.pkl" "ring" "done ring100";
    experiment genv "doing line100" (mret (path_graph 100))
      "../data/line_100.pkl" "line" "done line100";
    experiment genv "doing star100" (mret (star_graph 100))
      "../data/star_100.pkl" "star" "done star100";
    experiment genv "doing grid100" (mret (grid_2d_graph 10 10))
      "../data/grid_10.pkl" "grid" "done grid100";
    experiment genv "doing trigrid13" (mret (triangular_lattice_graph 13 13))
      "../data/trigrid_13.pkl" "trigrid" "done trigrid13";
    experiment genv "doing Gö" (street_network "goe")
      "../data/street_goe_homogenized.pkl" "novolcomp" "done Gö";
    experiment genv "doing Harz" (street_network "harz")
      "../data/street_harz_homogenized.pkl" "novolcomp" "done Harz";
    experiment genv "doing Berlin" (street_network "berlin")
      "../data/street_berlin_homogenized.pkl" "novolcomp" "done Berlin";
    many_berlins genv ].

(** The [__main__] block. *)
Definition main (genv : gmap string pyobj) : M unit :=
  run_blocks (experiments genv).

(** ** Relations between the world before and after

    Used to say what a function leaves alone. *)

(** The world after is the world before with more draws taken from the two
    random sources: same files, same trace, same tapes. *)
Definition only_draws (w w' : World) : Prop := ∃ a b, w' = drawn w a b.

(** Every file but the one at [path] is as it was. *)
Definition other_files (path : string) (w w' : World) : Prop :=
  ∀ p, p ≠ path → fs w' !! p = fs w !! p.

(** [result[k]] for a key that is looked up as a number. *)
Fixpoint dict_get {V : Type} (k : Q) (d : list (Q * V)) : option V :=
  match d with
  | [] => None
  | (k', v) :: d' => if Qeq_bool k' k then Some v else dict_get k d'
  end.

(** The pickle paths of the twelve sweeps of the script, in its order. *)
Definition sweep_paths : list string :=
  ["../data/ring_10.pkl"; "../data/ring_100.pkl"; "../data/line_100.pkl";
   "../data/star_100.pkl"; "../data/grid_10.pkl"; "../data/trigrid_13.pkl";
   "../data/street_goe_homogenized.pkl"; "../data/street_harz_homogenized.pkl";
   "../data/street_berlin_homogenized.pkl";
   "../data/street_berlin_homogenized_coarse_graining_meters_200_target_edge_length_400.pkl";
   "../data/street_berlin_homogenized_coarse_graining_meters_200_target_edge_length_600.pkl";
   "../data/street_berlin_homogenized_coarse_graining_meters_200_target_edge_length_800.pkl"].

(** The graph file of a street network, as [street_network] names it. *)
Definition street_graph_path (name : string) : string :=
  ("../data/homogenized_networks/" +:+ name +:+ "/") +:+ "/G_homog.gpkl".

Definition all_berlin_path : string :=
  "../data/homogenized_networks/berlin/" +:+ "/diff_coarse_graining/all_berlin.pkl".

(** What the script prints when every sweep is skipped. *)
Definition rerun_messages : list event :=
  let skipped := EvPrint "pickle exists, doing nothing" in
  [EvPrint "doing ring10"; skipped; EvPrint "done ring10";
   EvPrint "doing ring100"; skipped; EvPrint "done ring100";
   EvPrint "doing line100"; skipped; EvPrint "done line100";
   EvPrint "doing star100"; skipped; EvPrint "done star100";
   EvPrint "doing grid100"; skipped; EvPrint "done grid100";
   EvPrint "doing trigrid13"; skipped; EvPrint "done trigrid13";
   EvPrint "doing Gö"; skipped; EvPrint "done Gö";
   EvPrint "doing Harz"; skipped; EvPrint "done Harz";
   EvPrint "doing Berlin"; skipped; EvPrint "done Berlin";
   EvPrint "Doing Berlin 200 400"; skipped;
   EvPrint "Doing Berlin 200 600"; skipped;
   EvPrint "Doing Berlin 200 800"; skipped].

(** In the world [w], whatever has been printed so far, the block [b] only
    adds the actions [m] to the trace and returns. *)
Definition prints (b : M unit) (m : list event) (w : World) : Prop :=
  ∀ es, b (logged w es) = (logged w (es ++ m), inr ()).

End Harness.



(** ** Concrete instances

    Worlds and an engine on which the functions above can be evaluated. *)

(** An engine whose payloads say nothing. *)
Definition unit_engine (nG : Network) (reqs : list Request)
    (network_type : string) (start : node) : unit * unit := ((), ()).

(** The arithmetic is binary64, every draw of [random] is [k] and every
    standard exponential variate is [1], every path can be written, nothing
    has been printed, and the files are [files]. *)
Definition constant_world (k : nat) (files : gmap string (@file unit unit))
  : @World unit unit :=
  mkWorld (λ _, k) 0 (λ _, (1%N, 1%positive)) 0 b64 files (λ _, None) [].

(** A sweep that was interrupted after forty points. *)
Definition partial_store : list (Q * @Entry unit unit) :=
  (λ x, (x, mkEntry (Some ()) (Some ()))) <$> take 40 x_range.

(** The pickles of the six synthetic topologies are present, no street
    network is. *)
Definition synthetic_done : gmap string (@file unit unit) :=
  list_to_map
    ((λ p, (p, FStore partial_store)) <$>
       ["../data/ring_10.pkl"; "../data/ring_100.pkl"; "../data/line_100.pkl";
        "../data/star_100.pkl"; "../data/grid_10.pkl"; "../data/trigrid_13.pkl"]).

(** A callee that answers at once. *)
Definition instant_callee (G : Graph) (nG : Network) (x : Q)
    (network_type : string) (l_avg : Q) : @M unit unit (unit * unit) :=
  mret ((), ()).

(** The module with the name that the loop calls bound to that callee. *)
Definition instant_globals : gmap string (@pyobj unit unit) :=
  <["simulate_simgle_request_rate" := PyFunction instant_callee]>
    (module_globals unit_engine).




(** The files after a full run of the script: the twelve pickles, the three
    street networks and the coarse-grained Berlin networks. *)
Definition complete_files : gmap string (@file unit unit) :=
  list_to_map
    (((λ p, (p, FStore partial_store)) <$> sweep_paths) ++
     ((λ name, (street_graph_path name, FGraph (path_graph 2)))
        <$> ["goe"; "harz"; "berlin"]) ++
     [(all_berlin_path,
       FAllGs {[200 := list_to_map ((λ t, (t, path_graph 2))
                                      <$> [400; 600; 800])]})]).

(** The graph of two nodes and no edge. *)
Definition two_isolated_nodes : Graph := add_node (NInt 1) (add_node (NInt 0) ∅).

(** The graph with the single node 0. *)
Definition one_node_graph : Graph := add_node (NInt 0) ∅.

(** The arithmetic is binary64, the draws of [random] are 0, 1, 0, 1, ...
    and every standard exponential variate is [1]. *)
Definition alternating_world {req_data insertion_data : Type}
  : @World req_data insertion_data :=
  mkWorld (λ i, i `mod` 2)%nat 0 (λ _, (1%N, 1%positive)) 0 b64 ∅
          (λ _, None) [].

(** The arithmetic is binary64, every draw of [random] is 0, the first
    standard exponential variate is 500000 and every later one is the
    binary64 number nearest to 1e-11. *)
Definition absorbing_world : @World unit unit :=
  mkWorld (λ _, 0%nat) 0
          (λ i, match i with
                | O => (500000%N, 1%positive)
                | S _ => (1%N, 100000000000%positive)
                end)
          0 b64 ∅ (λ _, None) [].

(** No path can be opened for writing: [open] raises [FileNotFoundError]. *)
Definition locked_world : @World unit unit :=
  mkWorld (λ _, 0%nat) 0 (λ _, (1%N, 1%positive)) 0 b64 ∅
          (λ path, Some (FileNotFoundError path)) [].

(** * Pairs *)

(** A run is the pair of its final world and its value. *)
Lemma run_with_value {A B : Type} (p : A * B) (b : B) :
  p.2 = b → p = (p.1, b).
Proof. intros <-. destruct p. reflexivity. Qed.

(** * The rounding of binary64 *)

(** *** Powers of two *)

Lemma pow2_pos (e : Z) : (0 < pow2 e)%Q.
Proof. apply Qpower_0_lt. reflexivity. Qed.

Lemma pow2_add (a b : Z) : (pow2 (a + b) == pow2 a * pow2 b)%Q.
Proof. apply Qpower_plus. discriminate. Qed.

Lemma pow2_le (a b : Z) : a ≤ b → (pow2 a <= pow2 b)%Q.
Proof. intros H. apply Qpower_le_compat_l; [exact H | discriminate]. Qed.

Lemma pow2_lt (a b : Z) : a < b → (pow2 a < pow2 b)%Q.
Proof. intros H. apply Qpower_lt_compat_l; [exact H | reflexivity]. Qed.

Lemma pow2_Z (n : Z) : 0 ≤ n → (inject_Z (2 ^ n) == pow2 n)%Q.
Proof. intros H. apply (Zpower_Qpower 2 n H). Qed.

Lemma pow2_split (a b : Z) : (pow2 a == pow2 (a - b) * pow2 b)%Q.
Proof. rewrite <- pow2_add. replace (a - b + b) with a by lia. reflexivity. Qed.

(** The exponent of a number is determined by the number. *)
Lemma exponent_le (q1 q2 : Q) (e1 e2 : Z) :
  (pow2 e1 <= q1)%Q → (q1 <= q2)%Q → (q2 < pow2 (e2 + 1))%Q → e1 ≤ e2.
Proof.
  intros H1 H12 H2.
  destruct (Z_le_gt_dec e1 e2) as [Hle|Hgt]; [exact Hle|]. exfalso.
  pose proof (pow2_le (e2 + 1) e1 ltac:(lia)) as Hp. lra.
Qed.

Lemma inject_Z_pos_lt (p : positive) : (0 < inject_Z (Zpos p))%Q.
Proof. reflexivity. Qed.

Lemma ilog2_spec (q : Q) :
  (0 < q)%Q → (pow2 (ilog2 q) <= q)%Q ∧ (q < pow2 (ilog2 q + 1))%Q.
Proof.
  intros Hq. destruct q as [n d].
  assert (0 < n) as Hn by (unfold Qlt in Hq; simpl in Hq; lia).
  set (ln := Z.log2 n). set (ld := Z.log2 (Zpos d)).
  assert (0 ≤ ln) as Hln by apply Z.log2_nonneg.
  assert (0 ≤ ld) as Hld by apply Z.log2_nonneg.
  destruct (Z.log2_spec n Hn) as [Hn1 Hn2]. fold ln in Hn1, Hn2.
  destruct (Z.log2_spec (Zpos d) ltac:(lia)) as [Hd1 Hd2]. fold ld in Hd1, Hd2.
  assert (pow2 ln <= inject_Z n)%Q as HN1
      by (rewrite <- pow2_Z by lia; rewrite <- Zle_Qle; exact Hn1).
  assert (inject_Z n < pow2 (ln + 1))%Q as HN2
      by (rewrite <- pow2_Z by lia; rewrite <- Zlt_Qlt; exact Hn2).
  assert (pow2 ld <= inject_Z (Zpos d))%Q as HD1
      by (rewrite <- pow2_Z by lia; rewrite <- Zle_Qle; exact Hd1).
  assert (inject_Z (Zpos d) < pow2 (ld + 1))%Q as HD2
      by (rewrite <- pow2_Z by lia; rewrite <- Zlt_Qlt; exact Hd2).
  assert (n # d == inject_Z n / inject_Z (Zpos d))%Q as Hdiv by apply Qmake_Qdiv.
  pose proof (inject_Z_pos_lt d) as HD0.
  set (a := ln - ld).
  assert (pow2 (a - 1) < n # d)%Q as Hlow.
  { rewrite Hdiv. apply Qlt_shift_div_l; [exact HD0|].
    pose proof (pow2_pos (a - 1)) as Hp.
    assert (pow2 ln == pow2 (a - 1) * pow2 (ld + 1))%Q as Hs.
    { rewrite <- pow2_add. unfold a. replace (ln - ld - 1 + (ld + 1)) with ln by lia.
      reflexivity. }
    nra. }
  assert (n # d < pow2 (a + 1))%Q as Hup.
  { rewrite Hdiv. apply Qlt_shift_div_r; [exact HD0|].
    pose proof (pow2_pos (a + 1)) as Hp.
    assert (pow2 (ln + 1) == pow2 (a + 1) * pow2 ld)%Q as Hs.
    { rewrite <- pow2_add. unfold a. replace (ln - ld + 1 + ld) with (ln + 1) by lia.
      reflexivity. }
    nra. }
  unfold ilog2. cbn [Qnum Qden]. fold ln ld a.
  destruct (Qle_bool (pow2 a) (n # d)) eqn:Hb.
  - apply Qle_bool_iff in Hb. split; assumption.
  - assert (n # d < pow2 a)%Q as Hlt.
    { apply Qnot_le_lt. intros Hle. apply Qle_bool_iff in Hle. congruence. }
    replace (a - 1 + 1) with a by lia. split; [apply Qlt_le_weak|]; assumption.
Qed.

Lemma ilog2_mono (q1 q2 : Q) :
  (0 < q1)%Q → (q1 <= q2)%Q → ilog2 q1 ≤ ilog2 q2.
Proof.
  intros H1 H12.
  destruct (ilog2_spec q1 H1) as [Ha _].
  destruct (ilog2_spec q2 ltac:(lra)) as [_ Hb].
  eapply exponent_le; eassumption.
Qed.

Lemma ilog2_unique (q : Q) (e : Z) :
  (pow2 e <= q)%Q → (q < pow2 (e + 1))%Q → ilog2 q = e.
Proof.
  intros H1 H2.
  assert (0 < q)%Q as Hq by (pose proof (pow2_pos e); lra).
  destruct (ilog2_spec q Hq) as [Ha Hb].
  pose proof (exponent_le q q e (ilog2 q) H1 ltac:(lra) Hb).
  pose proof (exponent_le q q (ilog2 q) e Ha ltac:(lra) H2).
  lia.
Qed.

(** *** Rounding to the nearest integer *)

Lemma rne_bounds (q : Q) : Qfloor q ≤ rne q ≤ Qfloor q + 1.
Proof.
  unfold rne. destruct (Qcompare _ _); [destruct (Z.even _)| |]; lia.
Qed.

Lemma rne_Z (n : Z) : rne (inject_Z n) = n.
Proof.
  unfold rne. rewrite Qfloor_Z.
  assert (Qcompare (inject_Z n - inject_Z n) (1 # 2) = Lt) as ->;
    [|reflexivity].
  apply (proj1 (Qlt_alt _ _)). generalize (inject_Z n). intros q. lra.
Qed.

Lemma rne_mono (x y : Q) : (x <= y)%Q → rne x ≤ rne y.
Proof.
  intros Hxy. pose proof (Qfloor_resp_le x y Hxy) as Hf.
  pose proof (rne_bounds x) as Hx. pose proof (rne_bounds y) as Hy.
  destruct (Z.eq_dec (Qfloor x) (Qfloor y)) as [Heq|Hne]; [|lia].
  unfold rne. rewrite <- Heq.
  destruct (Qcompare (x - inject_Z (Qfloor x)) (1 # 2)) eqn:Hcx;
    destruct (Qcompare (y - inject_Z (Qfloor x)) (1 # 2)) eqn:Hcy;
    try (destruct (Z.even (Qfloor x))); try lia;
    repeat match goal with
    | H : (_ ?= _)%Q = Eq |- _ => apply (proj2 (Qeq_alt _ _)) in H
    | H : (_ ?= _)%Q = Lt |- _ => apply (proj2 (Qlt_alt _ _)) in H
    | H : (_ ?= _)%Q = Gt |- _ => apply (proj2 (Qgt_alt _ _)) in H
    end; exfalso; lra.
Qed.

Lemma rne_comp (x y : Q) : (x == y)%Q → rne x = rne y.
Proof.
  intros H. apply Z.le_antisymm; apply rne_mono; rewrite H; apply Qle_refl.
Qed.

(** *** The binary64 number nearest to a positive number *)

Lemma b64_pos (q : Q) : (0 < q)%Q → (b64 q == nearest q)%Q.
Proof.
  intros Hq. unfold b64. apply (proj1 (Qgt_alt _ _)) in Hq. rewrite Hq.
  cbv zeta. rewrite Qred_correct. reflexivity.
Qed.

Lemma nearest_nonneg (q : Q) : (0 < q)%Q → (0 <= nearest q)%Q.
Proof.
  intros Hq. unfold nearest. pose proof (pow2_pos (ulp_exp q)) as Hu.
  apply Qmult_le_0_compat; [|lra].
  change 0%Q with (inject_Z 0). rewrite <- Zle_Qle.
  rewrite <- (rne_Z 0). apply rne_mono. change (inject_Z 0) with 0%Q.
  apply Qle_shift_div_l; [exact Hu | lra].
Qed.

(** The scaled number lies below 2^53, and from 2^52 on when the number is
    normal. *)
Lemma scaled_upper (q : Q) :
  (0 < q)%Q → rne (q / pow2 (ulp_exp q)) ≤ 2 ^ 53.
Proof.
  intros Hq. rewrite <- (rne_Z (2 ^ 53)). apply rne_mono.
  pose proof (pow2_pos (ulp_exp q)) as Hu.
  apply Qle_shift_div_r; [exact Hu|].
  rewrite pow2_Z by lia. rewrite <- pow2_add.
  destruct (ilog2_spec q Hq) as [_ Hup].
  pose proof (pow2_le (ilog2 q + 1) (53 + ulp_exp q)
                ltac:(unfold ulp_exp; lia)). lra.
Qed.

Lemma nearest_upper (q : Q) :
  (0 < q)%Q → (nearest q <= pow2 (53 + ulp_exp q))%Q.
Proof.
  intros Hq. unfold nearest. rewrite pow2_add, <- (pow2_Z 53) by lia.
  pose proof (pow2_pos (ulp_exp q)) as Hu.
  apply Qmult_le_compat_r; [|lra].
  rewrite <- Zle_Qle. apply scaled_upper, Hq.
Qed.

Lemma nearest_lower (q : Q) :
  (0 < q)%Q → -1022 ≤ ilog2 q → (pow2 (ilog2 q) <= nearest q)%Q.
Proof.
  intros Hq He. unfold nearest.
  assert (ulp_exp q = ilog2 q - 52) as Hs by (unfold ulp_exp; lia).
  rewrite Hs.
  pose proof (pow2_pos (ilog2 q - 52)) as Hu.
  rewrite (pow2_split (ilog2 q) (ilog2 q - 52)) at 1.
  replace (ilog2 q - (ilog2 q - 52)) with 52 by lia.
  apply Qmult_le_compat_r; [|lra].
  rewrite <- (pow2_Z 52) by lia. rewrite <- Zle_Qle.
  rewrite <- (rne_Z (2 ^ 52)). apply rne_mono.
  apply Qle_shift_div_l; [exact Hu|].
  rewrite pow2_Z by lia. rewrite <- pow2_add.
  replace (52 + (ilog2 q - 52)) with (ilog2 q) by lia.
  apply (ilog2_spec q Hq).
Qed.

Lemma nearest_mono (q1 q2 : Q) :
  (0 < q1)%Q → (q1 <= q2)%Q → (nearest q1 <= nearest q2)%Q.
Proof.
  intros H1 H12. assert (0 < q2)%Q as H2 by lra.
  pose proof (ilog2_mono q1 q2 H1 H12) as He.
  destruct (Z.eq_dec (ulp_exp q1) (ulp_exp q2)) as [Heq|Hne].
  - unfold nearest. rewrite Heq.
    pose proof (pow2_pos (ulp_exp q2)) as Hu.
    apply Qmult_le_compat_r; [|lra].
    rewrite <- Zle_Qle. apply rne_mono.
    unfold Qdiv. apply Qmult_le_compat_r; [exact H12|].
    apply Qlt_le_weak, Qinv_lt_0_compat, Hu.
  - assert (-1022 ≤ ilog2 q2 ∧ 53 + ulp_exp q1 ≤ ilog2 q2) as [Hn Hlt]
        by (unfold ulp_exp in *; lia).
    eapply Qle_trans; [apply nearest_upper, H1|].
    eapply Qle_trans; [apply pow2_le, Hlt|].
    apply nearest_lower; assumption.
Qed.

Lemma nearest_comp (q1 q2 : Q) :
  (0 < q1)%Q → (q1 == q2)%Q → (nearest q1 == nearest q2)%Q.
Proof.
  intros H1 H12. apply Qle_antisym; apply nearest_mono; lra.
Qed.

(** A number of the form [K * 2^s'] with [s'] its own unit is its own
    nearest number. *)
Lemma nearest_fixed (v : Q) (K : Z) :
  (0 < v)%Q → (v == inject_Z K * pow2 (ulp_exp v))%Q → (nearest v == v)%Q.
Proof.
  intros Hv HK. unfold nearest.
  pose proof (pow2_pos (ulp_exp v)) as Hu.
  assert (v / pow2 (ulp_exp v) == inject_Z K)%Q as Hq.
  { rewrite HK at 1. field. lra. }
  rewrite (rne_comp _ _ Hq), rne_Z. symmetry. exact HK.
Qed.

Lemma nearest_idem (q : Q) :
  (0 < q)%Q → (0 < nearest q)%Q → (nearest (nearest q) == nearest q)%Q.
Proof.
  intros Hq Hv.
  set (s := ulp_exp q). set (M := rne (q / pow2 s)).
  assert (nearest q == inject_Z M * pow2 s)%Q as Hval by reflexivity.
  pose proof (scaled_upper q Hq) as HM. fold s M in HM.
  pose proof (pow2_pos s) as Hu.
  assert (-1074 ≤ s) as Hs by (unfold s, ulp_exp; lia).
  assert (0 < M) as HM0.
  { destruct (Z_lt_le_dec 0 M) as [H|H]; [exact H|]. exfalso.
    assert (inject_Z M <= 0)%Q as H' by (change 0%Q with (inject_Z 0);
                                          rewrite <- Zle_Qle; exact H).
    rewrite Hval in Hv. nra. }
  destruct (Z.eq_dec M (2 ^ 53)) as [Htop|Hless].
  - (* the significand carried into the next exponent *)
    assert (nearest q == pow2 (53 + s))%Q as Hpow.
    { rewrite Hval, Htop, pow2_Z by lia. rewrite <- pow2_add. reflexivity. }
    assert (ilog2 (nearest q) = 53 + s) as He.
    { apply ilog2_unique; rewrite Hpow; [apply Qle_refl|].
      apply pow2_lt. lia. }
    apply (nearest_fixed _ (2 ^ 52)); [exact Hv|].
    unfold ulp_exp. rewrite He.
    replace (Z.max (53 + s) (-1022) - 52) with (1 + s) by lia.
    rewrite Hpow, pow2_Z by lia. rewrite <- pow2_add.
    replace (52 + (1 + s)) with (53 + s) by lia. reflexivity.
  - assert (M ≤ 2 ^ 53 - 1) as HM1 by lia.
    assert (nearest q < pow2 (53 + s))%Q as Hup.
    { rewrite Hval, pow2_add, <- (pow2_Z 53) by lia.
      apply Qmult_lt_compat_r; [exact Hu|].
      rewrite <- Zlt_Qlt. lia. }
    destruct (ilog2_spec (nearest q) Hv) as [Hlow _].
    pose proof (exponent_le _ _ _ (52 + s) Hlow (Qle_refl _)
                  ltac:(replace (52 + s + 1) with (53 + s) by lia; exact Hup))
      as He.
    set (s' := ulp_exp (nearest q)).
    assert (s' ≤ s) as Hs' by (unfold s', ulp_exp; lia).
    apply (nearest_fixed _ (M * 2 ^ (s - s'))); [exact Hv|].
    fold s'. rewrite Hval, inject_Z_mult, pow2_Z by lia.
    rewrite <- Qmult_assoc, <- pow2_add.
    replace (s - s' + s') with s by lia. reflexivity.
Qed.

(** *** The rounding of binary64 *)

Lemma fround_b64_pos (q : Q) : (0 < q)%Q → (fround b64 q == nearest q)%Q.
Proof.
  intros Hq. unfold fround. pose proof Hq as Hc. apply (proj1 (Qgt_alt _ _)) in Hc.
  rewrite Hc. rewrite (b64_pos q Hq). apply Qabs_pos, nearest_nonneg, Hq.
Qed.

Lemma fround_b64_neg (q : Q) : (q < 0)%Q → (fround b64 q == - nearest (- q))%Q.
Proof.
  intros Hq. unfold fround. pose proof Hq as Hc. apply (proj1 (Qlt_alt _ _)) in Hc.
  rewrite Hc. rewrite (b64_pos (- q)) by lra.
  rewrite Qabs_pos by (apply nearest_nonneg; lra). reflexivity.
Qed.

Lemma fround_b64_zero (q : Q) : (q == 0)%Q → fround b64 q = 0%Q.
Proof. intros Hq. unfold fround. apply (proj1 (Qeq_alt _ _)) in Hq. rewrite Hq. reflexivity. Qed.

Lemma fround_b64_mono (x y : Q) : (x <= y)%Q → (fround b64 x <= fround b64 y)%Q.
Proof.
  intros Hxy.
  destruct (Q_dec x 0) as [[Hx|Hx]|Hx]; destruct (Q_dec y 0) as [[Hy|Hy]|Hy].
  - rewrite (fround_b64_neg x Hx), (fround_b64_neg y Hy).
    pose proof (nearest_mono (- y) (- x) ltac:(lra) ltac:(lra)). lra.
  - rewrite (fround_b64_neg x Hx), (fround_b64_pos y Hy).
    pose proof (nearest_nonneg (- x) ltac:(lra)).
    pose proof (nearest_nonneg y Hy). lra.
  - rewrite (fround_b64_neg x Hx), (fround_b64_zero y Hy).
    pose proof (nearest_nonneg (- x) ltac:(lra)). lra.
  - exfalso. lra.
  - rewrite (fround_b64_pos x Hx), (fround_b64_pos y Hy).
    apply nearest_mono; assumption.
  - exfalso. lra.
  - exfalso. lra.
  - rewrite (fround_b64_zero x Hx), (fround_b64_pos y Hy).
    apply nearest_nonneg, Hy.
  - rewrite (fround_b64_zero x Hx), (fround_b64_zero y Hy). apply Qle_refl.
Qed.

Lemma fround_b64_comp (x y : Q) : (x == y)%Q → (fround b64 x == fround b64 y)%Q.
Proof.
  intros H. apply Qle_antisym; apply fround_b64_mono; rewrite H; apply Qle_refl.
Qed.

Lemma fround_b64_idem (x : Q) : (fround b64 (fround b64 x) == fround b64 x)%Q.
Proof.
  destruct (Q_dec x 0) as [[Hx|Hx]|Hx].
  - pose proof (nearest_nonneg (- x) ltac:(lra)) as Hn.
    rewrite (fround_b64_comp _ _ (fround_b64_neg x Hx)), (fround_b64_neg x Hx).
    destruct (Qle_lt_or_eq _ _ Hn) as [Hpos|Hzero].
    + rewrite fround_b64_neg by lra.
      rewrite (nearest_comp (- - nearest (- x)) (nearest (- x))) by lra.
      rewrite nearest_idem by lra. reflexivity.
    + rewrite fround_b64_zero by lra. lra.
  - pose proof (nearest_nonneg x Hx) as Hn.
    rewrite (fround_b64_comp _ _ (fround_b64_pos x Hx)), (fround_b64_pos x Hx).
    destruct (Qle_lt_or_eq _ _ Hn) as [Hpos|Hzero].
    + rewrite fround_b64_pos by lra. apply nearest_idem; assumption.
    + rewrite fround_b64_zero by lra. lra.
  - rewrite (fround_b64_zero x Hx). reflexivity.
Qed.

(** Binary64 keeps the order of the exact results, and a binary64 number
    is its own rounding. *)
Lemma b64_rounding_ok : rounding_ok b64.
Proof. split; [exact fround_b64_mono | exact fround_b64_idem]. Qed.

(** * Properties *)

Section Properties.

Context {req_data insertion_data : Type}.
Variable engine :
  Network → list Request → string → node → req_data * insertion_data.

#[local] Abbreviation World := (@World req_data insertion_data).
#[local] Abbreviation M := (@M req_data insertion_data).
#[local] Abbreviation pyobj := (@pyobj req_data insertion_data).
#[local] Abbreviation Store := (list (Q * @Entry req_data insertion_data)).

(** *** Sequencing *)

Lemma bind_value {A B : Type} (m : M A) (f : A → M B) (w w' : World) (a : A) :
  m w = (w', inr a) → (m ≫= f) w = f a w'.
Proof. intros H. unfold mbind, M_bind. rewrite H. reflexivity. Qed.

Lemma bind_raise {A B : Type} (m : M A) (f : A → M B) (w w' : World) (e : exn) :
  m w = (w', inl e) → (m ≫= f) w = (w', inl e).
Proof. intros H. unfold mbind, M_bind. rewrite H. reflexivity. Qed.

Lemma logged_nil (w : World) : logged w [] = w.
Proof. destruct w. unfold logged. simpl. rewrite app_nil_r. reflexivity. Qed.

Lemma logged_logged (w : World) (es es' : list event) :
  logged (logged w es) es' = logged w (es ++ es').
Proof. unfold logged. simpl. rewrite app_assoc. reflexivity. Qed.

Lemma log_spec (e : event) (w : World) : log e w = (logged w [e], inr ()).
Proof. reflexivity. Qed.

(** *** The skip *)

Lemma skip_spec (genv : gmap string pyobj) (G : Graph)
    (pickle_path network_type : string) (w : World) :
  is_Some (fs w !! pickle_path) →
  simulate_different_request_rates genv G pickle_path network_type w =
    (logged w [EvPrint "pickle exists, doing nothing"], inr None).
Proof.
  intros Hex. unfold simulate_different_request_rates.
  erewrite bind_value; last first.
  { unfold path_exists. rewrite bool_decide_eq_true_2 by exact Hex. reflexivity. }
  reflexivity.
Qed.

(** C3: when the pickle path exists on entry, whatever the file holds, the
    sweep prints its message and returns: the files and the two random
    sources are untouched, and the message is the only action (no graph
    wrapper, no average shortest path, no generator, no engine, no dump). *)
Theorem existing_pickle_is_skipped (genv : gmap string pyobj) (G : Graph)
    (pickle_path network_type : string) (w : World) :
  is_Some (fs w !! pickle_path) →
  simulate_different_request_rates genv G pickle_path network_type w =
    (logged w [EvPrint "pickle exists, doing nothing"], inr None).
Proof. apply skip_spec. Qed.

(** *** The call of the loop *)

Lemma x_range_length : length x_range = 100%nat.
Proof. reflexivity. Qed.

Lemma misspelt_name_unbound :
  module_globals engine !! "simulate_simgle_request_rate" = None.
Proof. reflexivity. Qed.

Lemma path_exists_absent (path : string) (w : World) :
  fs w !! path = None → path_exists path w = (w, inr false).
Proof.
  intros H. unfold path_exists. rewrite bool_decide_eq_false_2; [reflexivity|].
  rewrite H. intros [? ?]; discriminate.
Qed.

(** In the module as it is, one turn of the loop raises before anything is
    simulated or written. *)
Lemma sweep_step_raises (G : Graph) (nG : Network) (network_type : string)
    (l_avg : Q) (pickle_path : string) (result : Store) (x : Q) (w : World) :
  sweep_step (module_globals engine) G nG network_type l_avg pickle_path result x w
  = (w, inl (NameError "simulate_simgle_request_rate")).
Proof.
  unfold sweep_step. apply bind_raise.
  unfold call_global. rewrite misspelt_name_unbound. reflexivity.
Qed.

Lemma sweep_loop_raises (G : Graph) (nG : Network) (network_type : string)
    (l_avg : Q) (pickle_path : string) (result : Store) (x : Q) (xs : list Q)
    (w : World) :
  sweep_loop (module_globals engine) G nG network_type l_avg pickle_path
             (x :: xs) result w
  = (w, inl (NameError "simulate_simgle_request_rate")).
Proof. simpl. apply bind_raise, sweep_step_raises. Qed.

(** The sweep on a fresh path up to its loop: the graph is wrapped and the
    average shortest path length is computed, once, before the loop, which
    gets it as a floating-point number. *)
Lemma fresh_sweep_unfold (genv : gmap string pyobj) (G : Graph)
    (pickle_path network_type : string) (w : World) (l : Q) :
  fs w !! pickle_path = None →
  average_shortest_path_length G = inr l →
  simulate_different_request_rates genv G pickle_path network_type w
  = (sweep_loop genv G (mkNetwork G network_type) network_type
                (fround (round w) l) pickle_path x_range []
     ≫= λ _, mret None)
      (logged w [EvNetwork G network_type; EvAvgShortestPath G]).
Proof.
  intros Hfresh Havg. unfold simulate_different_request_rates.
  erewrite bind_value by (apply path_exists_absent, Hfresh).
  cbv beta iota.
  erewrite bind_value by apply log_spec.
  erewrite bind_value by apply log_spec.
  rewrite logged_logged. simpl app. rewrite Havg.
  erewrite bind_value by reflexivity.
  erewrite bind_value by reflexivity. reflexivity.
Qed.

(** C1: in the module as it is, the sweep on a pickle path that does not
    exist never reaches its end.  It wraps the graph, computes the average
    shortest path length, and raises: the exception of that computation, or
    else the [NameError] of the first turn of the loop, whose call names
    [simulate_simgle_request_rate] while the function defined by the module
    is [simulate_single_request_rate].  No request is generated, the engine
    is not invoked and no file is written. *)
Theorem fresh_sweep_raises (G : Graph) (pickle_path network_type : string)
    (w : World) :
  fs w !! pickle_path = None →
  simulate_different_request_rates (module_globals engine) G pickle_path
                                   network_type w
  = (logged w [EvNetwork G network_type; EvAvgShortestPath G],
     inl match average_shortest_path_length G with
         | inl e => e
         | inr _ => NameError "simulate_simgle_request_rate"
         end).
Proof.
  intros Hfresh.
  destruct (average_shortest_path_length G) as [e|l] eqn:Havg.
  - unfold simulate_different_request_rates.
    erewrite bind_value by (apply path_exists_absent, Hfresh).
    cbv beta iota.
    erewrite bind_value by apply log_spec.
    erewrite bind_value by apply log_spec.
    rewrite logged_logged. simpl app. rewrite Havg.
    erewrite bind_raise; reflexivity.
  - rewrite (fresh_sweep_unfold _ G pickle_path network_type w l Hfresh Havg).
    destruct x_range as [|x xs] eqn:Hx.
    { pose proof x_range_length as Hl. rewrite Hx in Hl. discriminate. }
    erewrite bind_raise by apply sweep_loop_raises. reflexivity.
Qed.

(** C4: in the module as it is, the loop over the first [i] sweep values
    leaves no checkpoint: the pickle path is still absent afterwards, and
    for [i] of at least one the loop has raised the [NameError] of its
    first turn instead of storing [i] entries. *)
Theorem no_checkpoint_is_written (i : nat) (G : Graph) (nG : Network)
    (network_type : string) (l_avg : Q) (pickle_path : string) (w : World) :
  fs w !! pickle_path = None →
  let r := sweep_loop (module_globals engine) G nG network_type l_avg
                      pickle_path (take i x_range) [] w in
  fs r.1 !! pickle_path = None ∧
  ((0 < i)%nat → r.2 = inl (NameError "simulate_simgle_request_rate")).
Proof.
  intros Hfresh r. subst r.
  destruct (take i x_range) as [|x xs] eqn:Ht.
  - simpl. split; [exact Hfresh|]. intros Hi. exfalso.
    apply (f_equal length) in Ht. rewrite length_take, x_range_length in Ht.
    simpl in Ht. lia.
  - rewrite sweep_loop_raises. simpl. split; [exact Hfresh | reflexivity].
Qed.

(** *** Sampling without replacement *)

Lemma drawn_0 (w : World) : drawn w 0 0 = w.
Proof. destruct w. unfold drawn. simpl. f_equal; lia. Qed.

Lemma drawn_drawn (w : World) (a b c d : nat) :
  drawn (drawn w a b) c d = drawn w (a + c) (b + d).
Proof. unfold drawn. simpl. f_equal; lia. Qed.

(** The pool after a selection is the pool without the selected element,
    up to the order. *)
Lemma pool_without_perm (pool : list node) (j : nat) (v : node) :
  pool !! j = Some v → pool ≡ₚ v :: pool_without pool j.
Proof.
  intros Hj. unfold pool_without.
  destruct (last pool) as [z|] eqn:Hlast.
  2:{ apply last_None in Hlast. subst pool. discriminate. }
  apply last_Some in Hlast as [init ->].
  rewrite length_app. simpl length.
  replace (length init + 1 - 1)%nat with (length init) by lia.
  destruct (decide (j < length init)%nat) as [Hlt|Hge].
  - rewrite lookup_app_l in Hj by exact Hlt.
    rewrite insert_app_l by exact Hlt.
    rewrite take_app_length' by (rewrite length_insert; reflexivity).
    apply list_elem_of_split_length in Hj as (l1 & l2 & -> & Hlen).
    subst j. rewrite insert_app_r_alt by lia.
    replace (length l1 - length l1)%nat with 0%nat by lia. simpl.
    rewrite <- !app_assoc. simpl.
    rewrite (Permutation_app_comm l1 (v :: l2 ++ [z])). simpl.
    constructor.
    rewrite (Permutation_app_comm l1 (z :: l2)). simpl.
    rewrite <- app_assoc.
    rewrite (Permutation_app_comm l2 ([z] ++ l1)). simpl.
    constructor. apply Permutation_app_comm.
  - assert (j = length init) as ->.
    { apply lookup_lt_Some in Hj. rewrite length_app in Hj. simpl in Hj. lia. }
    rewrite list_lookup_middle in Hj by reflexivity. injection Hj as <-.
    rewrite insert_app_r_alt by lia.
    replace (length init - length init)%nat with 0%nat by lia. simpl.
    rewrite take_app_length.
    symmetry. apply Permutation_cons_append.
Qed.

Lemma pool_without_length (pool : list node) (j : nat) :
  (j < length pool)%nat → length (pool_without pool j) = (length pool - 1)%nat.
Proof.
  intros Hj. apply lookup_lt_is_Some_2 in Hj as [v Hv].
  apply pool_without_perm, Permutation_length in Hv. simpl in Hv. lia.
Qed.

(** [k] selections from a pool of at least [k] elements succeed after [k]
    draws; the selected elements are elements of the pool, and they are
    pairwise distinct when those of the pool are. *)
Lemma sample_pool_spec (k : nat) : ∀ (pool : list node) (w : World),
  (k ≤ length pool)%nat →
  ∃ vs, sample_pool pool k w = (drawn w k 0, inr vs)
        ∧ length vs = k
        ∧ vs ⊆ pool
        ∧ (NoDup pool → NoDup vs).
Proof.
  induction k as [|k IH]; intros pool w Hk.
  - exists []. simpl. rewrite drawn_0. repeat split; auto using NoDup_nil_2.
    apply list_subseteq_nil.
  - simpl.
    assert (0 < length pool)%nat as Hpos by lia.
    pose proof (Nat.mod_upper_bound (py_tape w (py_pos w)) (length pool)) as Hj.
    specialize (Hj ltac:(lia)).
    apply lookup_lt_is_Some_2 in Hj as Hv. destruct Hv as [v Hv].
    pose proof (pool_without_perm _ _ _ Hv) as Hperm.
    destruct (IH (pool_without pool (py_tape w (py_pos w) `mod` length pool))
                 (drawn w 1 0)) as (vs & Hs & Hlen & Hsub & Hnd).
    { rewrite pool_without_length by exact Hj. lia. }
    exists (v :: vs). split; [|split; [|split]].
    + erewrite bind_value by reflexivity. rewrite Hv.
      erewrite bind_value by exact Hs.
      rewrite drawn_drawn. reflexivity.
    + simpl. lia.
    + intros u Hu. rewrite Hperm. apply elem_of_cons in Hu as [->|Hu].
      * left.
      * right. apply Hsub, Hu.
    + intros Hpool. rewrite Hperm in Hpool. apply NoDup_cons in Hpool as [Hnot Hrest].
      apply NoDup_cons. split; [|apply Hnd, Hrest].
      intros Hin. apply Hnot, Hsub, Hin.
Qed.

Lemma nodes_NoDup (G : Graph) : NoDup (nodes G).
Proof. unfold nodes. rewrite reverse_Permutation. apply NoDup_remove_dups. Qed.

(** A position that is free exists as long as fewer positions are taken
    than there are. *)
Lemma first_free_spec (n : nat) (selected : list nat) :
  (length selected < n)%nat →
  (first_free n selected < n)%nat ∧ (first_free n selected ∉ selected).
Proof.
  intros Hlen. unfold first_free.
  destruct (filter (λ j, j ∉ selected) (seq 0 n)) as [|j l] eqn:Hf.
  - exfalso.
    assert (seq 0 n ⊆ selected) as Hsub.
    { intros j Hj. destruct (decide (j ∈ selected)) as [Hin|Hout]; [exact Hin|].
      assert (j ∈ filter (λ j, j ∉ selected) (seq 0 n)) as Hjf
          by (apply list_elem_of_filter; split; assumption).
      rewrite Hf in Hjf. inversion Hjf. }
    apply (NoDup_submseteq _ _ (NoDup_seq 0 n)) in Hsub.
    apply submseteq_length in Hsub. rewrite length_seq in Hsub. lia.
  - simpl.
    assert (j ∈ filter (λ j, j ∉ selected) (seq 0 n)) as Hj
        by (rewrite Hf; left).
    apply list_elem_of_filter in Hj as [Hout Hj].
    apply elem_of_seq in Hj. split; [lia | exact Hout].
Qed.

(** The redraws of one position: the position that comes out is free, and
    a position that is free from the start is kept without a draw. *)
Lemma redraw_spec (n : nat) (selected : list nat) :
  (length selected < n)%nat →
  ∀ (fuel j : nat) (w : World), (j < n)%nat →
    ∃ (a j' : nat),
      redraw fuel n selected j w = (drawn w a 0, inr j')
      ∧ (j' < n)%nat ∧ (j' ∉ selected)
      ∧ (j ∉ selected → a = 0%nat ∧ j' = j).
Proof.
  intros Hlen. induction fuel as [|fuel IH]; intros j w Hj.
  - simpl. destruct (decide (j ∈ selected)) as [Hin|Hout].
    + exists 0%nat, (first_free n selected). rewrite drawn_0.
      destruct (first_free_spec n selected Hlen) as [Hlt Hfree].
      repeat split; auto; contradiction.
    + exists 0%nat, j. rewrite drawn_0. repeat split; auto.
  - simpl. destruct (decide (j ∈ selected)) as [Hin|Hout].
    + destruct (IH (py_tape w (py_pos w) `mod` n)%nat (drawn w 1 0))
        as (a & j' & Hrun & Hlt & Hfree & _).
      { apply Nat.mod_upper_bound. lia. }
      exists (1 + a)%nat, j'. split; [|repeat split; auto; contradiction].
      erewrite bind_value by reflexivity. rewrite Hrun, drawn_drawn.
      reflexivity.
    + exists 0%nat, j. rewrite drawn_0. repeat split; auto.
Qed.

(** [k] selections by rejection from a population with room for them: at
    least [k] draws, and the elements at [k] distinct positions that were
    not selected before. *)
Lemma sample_reject_spec (population : list node) (k : nat) :
  ∀ (selected : list nat) (w : World),
    (k + length selected ≤ length population)%nat →
    ∃ (a : nat) (vs : list node) (js : list nat),
      sample_reject population k selected w = (drawn w a 0, inr vs)
      ∧ (k ≤ a)%nat ∧ length js = k
      ∧ NoDup js ∧ Forall (λ j, j ∉ selected) js
      ∧ Forall2 (λ j v, population !! j = Some v) js vs.
Proof.
  induction k as [|k IH]; intros selected w Hk.
  - exists 0%nat, [], []. simpl. rewrite drawn_0.
    repeat split; constructor.
  - simpl.
    assert (length selected < length population)%nat as Hlen by lia.
    destruct (redraw_spec (length population) selected Hlen patience
                (py_tape w (py_pos w) `mod` length population)%nat (drawn w 1 0))
      as (a1 & j & Hre & Hj & Hfree & _).
    { apply Nat.mod_upper_bound. lia. }
    apply lookup_lt_is_Some_2 in Hj as Hv. destruct Hv as [v Hv].
    destruct (IH (j :: selected) (drawn (drawn w 1 0) a1 0))
      as (a2 & vs & js & Hrest & Ha2 & Hjs & Hnd & Hout & Hall).
    { simpl. lia. }
    exists (1 + a1 + a2)%nat, (v :: vs), (j :: js).
    split; [|split; [lia|split; [simpl; lia|split; [|split]]]].
    + erewrite bind_value by reflexivity.
      erewrite bind_value by exact Hre. rewrite Hv.
      erewrite bind_value by exact Hrest.
      rewrite !drawn_drawn. reflexivity.
    + apply NoDup_cons. split; [|exact Hnd].
      intros Hin. rewrite Forall_forall in Hout.
      apply (Hout j Hin). left.
    + constructor; [exact Hfree|].
      eapply Forall_impl; [exact Hout|].
      intros i Hi Hin. apply Hi. right. exact Hin.
    + constructor; assumption.
Qed.

(** Elements at distinct positions of a list without repetition are
    distinct. *)
Lemma lookups_NoDup (population : list node) (js : list nat) (vs : list node) :
  Forall2 (λ j v, population !! j = Some v) js vs →
  vs ⊆ population ∧ (NoDup population → NoDup js → NoDup vs).
Proof.
  induction 1 as [|j v js vs Hv Hall [IHsub IHnd]].
  - split; [apply list_subseteq_nil | intros; constructor].
  - split.
    + intros u Hu. apply elem_of_cons in Hu as [->|Hu].
      * eapply list_elem_of_lookup_2, Hv.
      * apply IHsub, Hu.
    + intros Hpop Hjs. apply NoDup_cons in Hjs as [Hnot Hjs].
      apply NoDup_cons. split; [|apply IHnd; assumption].
      intros Hin. apply Hnot.
      apply list_elem_of_lookup_1 in Hin as [i Hi].
      destruct (Forall2_lookup_r _ _ _ _ _ Hall Hi) as (j' & Hj' & Hv').
      rewrite (NoDup_lookup _ _ _ _ Hpop Hv Hv').
      eapply list_elem_of_lookup_2, Hj'.
Qed.

(** [random.sample(population, k)] for [k] of at most the size of the
    population: at least [k] draws, exactly [k] for a small population, and
    [k] elements of the population, pairwise distinct when those of the
    population are. *)
Lemma random_sample_spec (population : list node) (k : nat) (w : World) :
  (k ≤ length population)%nat →
  ∃ (a : nat) (vs : list node),
    random_sample population k w = (drawn w a 0, inr vs)
    ∧ (k ≤ a)%nat
    ∧ ((length population ≤ setsize)%nat → a = k)
    ∧ length vs = k
    ∧ vs ⊆ population
    ∧ (NoDup population → NoDup vs).
Proof.
  intros Hk. unfold random_sample. rewrite decide_True by exact Hk.
  destruct (decide (length population ≤ setsize)%nat) as [Hsmall|Hlarge].
  - destruct (sample_pool_spec k population w Hk) as (vs & Hs & Hlen & Hsub & Hnd).
    exists k, vs. repeat split; auto.
  - destruct (sample_reject_spec population k [] w) as
      (a & vs & js & Hs & Ha & Hjs & Hnd & _ & Hall).
    { simpl. lia. }
    destruct (lookups_NoDup population js vs Hall) as [Hsub Hdistinct].
    exists a, vs. split; [exact Hs|]. split; [exact Ha|].
    split; [intros; contradiction|].
    split; [|split; [exact Hsub | auto]].
    apply Forall2_length in Hall. lia.
Qed.

(** [random.sample(G.nodes(), k=2)] on a graph of at least two nodes: at
    least two draws, exactly two on a small graph, and two distinct nodes
    of the graph. *)
Lemma random_sample_two (G : Graph) (w : World) :
  (2 ≤ length (nodes G))%nat →
  ∃ (a : nat) (orig dest : node),
    random_sample (nodes G) 2 w = (drawn w a 0, inr [orig; dest])
    ∧ (2 ≤ a)%nat ∧ ((length (nodes G) ≤ setsize)%nat → a = 2%nat)
    ∧ orig ≠ dest ∧ orig ∈ nodes G ∧ dest ∈ nodes G.
Proof.
  intros Hn.
  destruct (random_sample_spec (nodes G) 2 w Hn)
    as (a & vs & Hs & Ha & Hsmall & Hlen & Hsub & Hnd).
  destruct vs as [|orig [|dest [|? ?]]]; try discriminate.
  exists a, orig, dest. split; [exact Hs|]. split; [exact Ha|].
  split; [exact Hsmall|].
  specialize (Hnd (nodes_NoDup G)).
  apply NoDup_cons in Hnd as [Hnot _].
  split; [|split].
  - intros ->. apply Hnot. left.
  - apply Hsub. left.
  - apply Hsub. right. left.
Qed.

(** *** Rounding *)

Lemma fround_0 (rnd : Q → Q) : fround rnd 0 = 0%Q.
Proof. reflexivity. Qed.

Lemma fround_nonneg (rnd : Q → Q) (q : Q) : (0 <= q)%Q → (0 <= fround rnd q)%Q.
Proof.
  intros Hq. unfold fround. destruct (Qcompare q 0) eqn:Hc.
  - apply Qle_refl.
  - apply Qlt_alt in Hc. exfalso. apply (Qlt_irrefl q).
    eapply Qlt_le_trans; eassumption.
  - apply Qabs_nonneg.
Qed.

Lemma fround_nonpos (rnd : Q → Q) (q : Q) : (q <= 0)%Q → (fround rnd q <= 0)%Q.
Proof.
  intros Hq. unfold fround. destruct (Qcompare q 0) eqn:Hc.
  - apply Qle_refl.
  - pose proof (Qabs_nonneg (rnd (- q)%Q)) as H. lra.
  - apply Qgt_alt in Hc. exfalso. apply (Qlt_irrefl q).
    eapply Qle_lt_trans; eassumption.
Qed.


(** *** The request stream *)

Lemma variate_nonneg (w : World) (i : nat) : (0 <= variate w i)%Q.
Proof.
  apply fround_nonneg. unfold Qle. simpl. lia.
Qed.

Lemma inv_rate_pos (req_rate : Q) : (0 < req_rate)%Q → (0 < 1 / req_rate)%Q.
Proof.
  intros H. unfold Qdiv. rewrite Qmult_1_l. apply Qinv_lt_0_compat, H.
Qed.

Lemma inter_arrival_nonneg (req_rate : Q) (w : World) (k : nat) :
  (0 < req_rate)%Q → (0 <= inter_arrival req_rate w k)%Q.
Proof.
  intros Hr. unfold inter_arrival. apply fround_nonneg.
  apply Qmult_le_0_compat; [|apply variate_nonneg].
  apply fround_nonneg, Qlt_le_weak, inv_rate_pos, Hr.
Qed.

Lemma inter_arrival_drawn (req_rate : Q) (w : World) (a b k : nat) :
  inter_arrival req_rate (drawn w a b) k = inter_arrival req_rate w (b + k).
Proof.
  unfold inter_arrival, variate. simpl.
  rewrite Nat.add_assoc. reflexivity.
Qed.

Lemma fdiv_spec (a b : Q) (w : World) :
  ¬ (b == 0)%Q → fdiv a b w = (w, inr (fround (round w) (a / b))).
Proof.
  intros Hb. unfold fdiv. destruct (Qeq_bool b 0) eqn:E; [|reflexivity].
  apply Qeq_bool_iff in E. contradiction.
Qed.

Lemma fdiv_zero (a b : Q) (w : World) :
  (b == 0)%Q → fdiv a b w = (w, inl ZeroDivisionError).
Proof.
  intros Hb. unfold fdiv. apply Qeq_bool_iff in Hb. rewrite Hb. reflexivity.
Qed.

Lemma pos_nonzero (q : Q) : (0 < q)%Q → ¬ (q == 0)%Q.
Proof. intros H H0. rewrite H0 in H. discriminate. Qed.

(** [np.random.exponential(scale)] for a scale that is not negative: one
    draw. *)
Lemma np_exponential_scale (scale : Q) (w : World) :
  (0 <= scale)%Q →
  np_exponential scale w
  = (drawn w 0 1, inr (fround (round w) (scale * variate w (np_pos w)))).
Proof.
  intros H. unfold np_exponential.
  destruct (Qlt_le_dec scale 0) as [Hneg|_]; [|reflexivity].
  exfalso. apply (Qlt_irrefl scale). eapply Qlt_le_trans; eassumption.
Qed.

(** Lines 41 to 43 at a positive rate: the quotient, one draw of
    [numpy.random], and the sum. *)
Lemma next_time_spec (req_rate t : Q) (w : World) :
  (0 < req_rate)%Q →
  (scale ← fdiv 1 req_rate;
   delta_t ← np_exponential scale;
   fl (t + delta_t)) w
  = (drawn w 0 1, inr (fround (round w) (t + inter_arrival req_rate w 0))).
Proof.
  intros Hr.
  erewrite bind_value by (apply fdiv_spec, pos_nonzero, Hr).
  erewrite bind_value; last first.
  { apply np_exponential_scale, fround_nonneg, Qlt_le_weak, inv_rate_pos, Hr. }
  unfold fl, inter_arrival. simpl. rewrite Nat.add_0_r. reflexivity.
Qed.

Lemma running_sum_shift (rnd : Q → Q) (req_rate : Q) (w : World) (a : nat)
    (t : Q) (j : nat) :
  running_sum_from rnd (inter_arrival req_rate (drawn w a 1))
                   (rnd (t + inter_arrival req_rate w 0)%Q) j
  = running_sum_from rnd (inter_arrival req_rate w) t (S j).
Proof.
  induction j as [|j IH]; [reflexivity|].
  change (rnd (running_sum_from rnd (inter_arrival req_rate (drawn w a 1))
                 (rnd (t + inter_arrival req_rate w 0)%Q) j
               + inter_arrival req_rate (drawn w a 1) j)%Q
          = rnd (running_sum_from rnd (inter_arrival req_rate w) t (S j)
                 + inter_arrival req_rate w (S j))%Q).
  rewrite IH. f_equal. f_equal. apply inter_arrival_drawn.
Qed.

(** One resumption of the generator before the end of the stream. *)
Lemma gen_next_spec (G : Graph) (num_reqs : Z) (req_rate : Q) (s : GenState)
    (w : World) :
  (2 ≤ length (nodes G))%nat → (0 < req_rate)%Q → g_req_idx s < num_reqs →
  ∃ (a : nat) (orig dest : node),
    random_sample (nodes G) 2 w = (drawn w a 0, inr [orig; dest])
    ∧ (2 ≤ a)%nat ∧ ((length (nodes G) ≤ setsize)%nat → a = 2%nat)
    ∧ orig ≠ dest ∧ orig ∈ nodes G ∧ dest ∈ nodes G
    ∧ gen_next G num_reqs req_rate s w
      = (drawn w a 1,
         inr (Some (mkRequest (g_req_idx s + 1)
                      (fround (round w) (g_t s + inter_arrival req_rate w 0))
                      orig dest,
                    mkGenState
                      (fround (round w) (g_t s + inter_arrival req_rate w 0))
                      (g_req_idx s + 1)))).
Proof.
  intros Hn Hr Hidx.
  destruct (random_sample_two G w Hn)
    as (a & orig & dest & Hs & Ha & Hsmall & Hne & Ho & Hd).
  exists a, orig, dest. repeat (split; [assumption|]).
  unfold gen_next. rewrite decide_True by exact Hidx.
  erewrite bind_value by exact Hs. cbv beta iota.
  pose proof (next_time_spec req_rate (g_t s) (drawn w a 0) Hr) as Hnext.
  rewrite drawn_drawn in Hnext.
  rewrite (inter_arrival_drawn req_rate w a 0 0) in Hnext.
  rewrite Nat.add_0_r in Hnext. simpl Nat.add in Hnext.
  change (round (drawn w a 0)) with (round w) in Hnext.
  unfold mbind, M_bind in Hnext |- *.
  destruct (fdiv 1 req_rate (drawn w a 0)) as [w1 [e|scale]]; [discriminate|].
  destruct (np_exponential scale w1) as [w2 [e|delta_t]]; [discriminate|].
  injection Hnext as -> <-. reflexivity.
Qed.

(** What a resumption that yields a request has done. *)
Lemma gen_next_inv (G : Graph) (num_reqs : Z) (req_rate : Q) (s s' : GenState)
    (w w' : World) (rq : Request) :
  gen_next G num_reqs req_rate s w = (w', inr (Some (rq, s'))) →
  ∃ a : nat,
    w' = drawn w a 1
    ∧ (2 ≤ a)%nat ∧ ((length (nodes G) ≤ setsize)%nat → a = 2%nat)
    ∧ random_sample (nodes G) 2 w = (drawn w a 0, inr [origin rq; destination rq])
    ∧ origin rq ≠ destination rq
    ∧ origin rq ∈ nodes G ∧ destination rq ∈ nodes G
    ∧ rq = mkRequest (g_req_idx s + 1)
                     (fround (round w) (g_t s + inter_arrival req_rate w 0))
                     (origin rq) (destination rq)
    ∧ s' = mkGenState (arrival_time rq) (sequence_index rq).
Proof.
  unfold gen_next. destruct (decide (g_req_idx s < num_reqs)) as [Hidx|Hidx];
    [|discriminate].
  destruct (decide (2 ≤ length (nodes G))%nat) as [Hn|Hn].
  - destruct (random_sample_two G w Hn)
      as (a & orig & dest & Hs & Ha & Hsmall & Hne & Ho & Hd).
    erewrite bind_value by exact Hs. cbv beta iota.
    unfold fdiv. destruct (Qeq_bool req_rate 0).
    { erewrite bind_raise by reflexivity. discriminate. }
    erewrite bind_value by reflexivity.
    unfold mbind, M_bind, np_exponential.
    destruct (Qlt_le_dec _ 0); [discriminate|].
    unfold fl. intros [= <- <- <-].
    cbn [origin destination arrival_time sequence_index].
    exists a. rewrite drawn_drawn, !Nat.add_0_r.
    unfold inter_arrival, variate. simpl. rewrite !Nat.add_0_r.
    repeat split; auto.
  - erewrite bind_raise; [discriminate|].
    unfold random_sample. rewrite decide_False by exact Hn. reflexivity.
Qed.

(** The stream from any state of the generator on a graph of at least two
    nodes at a positive rate: with enough resumptions it ends after as many
    requests as indices are left, one draw of [numpy.random] and at least
    two of [random] for each. *)
Lemma drain_spec (G : Graph) (num_reqs : Z) (req_rate : Q) :
  (2 ≤ length (nodes G))%nat → (0 < req_rate)%Q →
  ∀ (m fuel : nat) (s : GenState) (w : World),
    m = Z.to_nat (num_reqs - g_req_idx s) → (m < fuel)%nat →
    ∃ (a : nat) (reqs : list Request),
      drain fuel G num_reqs req_rate s w = (drawn w a m, inr reqs)
      ∧ (2 * m ≤ a)%nat
      ∧ ((length (nodes G) ≤ setsize)%nat → a = (2 * m)%nat)
      ∧ length reqs = m.
Proof.
  intros Hn Hr. induction m as [|m IH]; intros fuel s w Hm Hfuel.
  - destruct fuel as [|fuel]; [lia|].
    exists 0%nat, []. split; [|repeat split; lia].
    simpl drain. unfold gen_next. rewrite decide_False by lia.
    erewrite bind_value by reflexivity. rewrite drawn_0. reflexivity.
  - destruct fuel as [|fuel]; [lia|].
    assert (g_req_idx s < num_reqs) as Hidx by lia.
    destruct (gen_next_spec G num_reqs req_rate s w Hn Hr Hidx)
      as (a & orig & dest & Hs & Ha & Hsmall & Hne & Ho & Hd & Hnext).
    set (t' := fround (round w) (g_t s + inter_arrival req_rate w 0)) in *.
    destruct (IH fuel (mkGenState t' (g_req_idx s + 1)) (drawn w a 1))
      as (a' & rest & Hrest & Ha' & Hsmall' & Hlen).
    { simpl. lia. }
    { lia. }
    exists (a + a')%nat, (mkRequest (g_req_idx s + 1) t' orig dest :: rest).
    split; [|split; [lia|split; [intros Hsz; rewrite Hsmall, Hsmall' by exact Hsz; lia|]]].
    + simpl drain. erewrite bind_value by exact Hnext. cbv beta iota.
      erewrite bind_value by exact Hrest. rewrite drawn_drawn. reflexivity.
    + simpl. rewrite Hlen. reflexivity.
Qed.

(** Every request of a stream that was consumed without an exception: its
    index, its arrival time as a running sum, and its pair of nodes, which
    is what [random.sample] gives at the state of the random sources that
    the request meets. *)
Lemma drain_inv (G : Graph) (num_reqs : Z) (req_rate : Q) (fuel : nat) :
  ∀ (s : GenState) (w w' : World) (reqs : list Request),
    drain fuel G num_reqs req_rate s w = (w', inr reqs) →
    ∀ (j : nat) (r : Request), reqs !! j = Some r →
      sequence_index r = g_req_idx s + 1 + Z.of_nat j
      ∧ arrival_time r
        = running_sum_from (fround (round w)) (inter_arrival req_rate w)
                           (g_t s) (S j)
      ∧ (∃ a : nat,
           (2 * j ≤ a)%nat
           ∧ ((length (nodes G) ≤ setsize)%nat → a = (2 * j)%nat)
           ∧ (random_sample (nodes G) 2 (drawn w a j)).2
             = inr [origin r; destination r])
      ∧ origin r ≠ destination r
      ∧ origin r ∈ nodes G ∧ destination r ∈ nodes G.
Proof.
  induction fuel as [|fuel IH]; intros s w w' reqs Hrun j r Hj.
  { injection Hrun as <- <-. discriminate. }
  simpl drain in Hrun. unfold mbind, M_bind in Hrun.
  destruct (gen_next G num_reqs req_rate s w) as [w1 [e|[[rq s1]|]]] eqn:Hnext;
    [discriminate| |injection Hrun as <- <-; discriminate].
  destruct (drain fuel G num_reqs req_rate s1 w1) as [w2 [e|rest]] eqn:Hrest;
    [discriminate|].
  injection Hrun as <- <-.
  apply gen_next_inv in Hnext
    as (a & -> & Ha & Hsmall & Hs & Hne & Ho & Hd & Hrq & ->).
  destruct j as [|j].
  - injection Hj as <-. split; [rewrite Hrq; simpl; lia|].
    split; [rewrite Hrq at 1; reflexivity|].
    split; [|auto].
    exists 0%nat. rewrite drawn_0, Hs. repeat split; auto.
  - simpl in Hj. destruct (IH _ _ _ _ Hrest j r Hj)
      as (Hi & Ht & (a' & Ha' & Hsmall' & Hp) & Hrest').
    cbn [g_t g_req_idx] in Hi, Ht.
    split; [|split; [|split; [|exact Hrest']]].
    + rewrite Hi, Hrq. simpl. lia.
    + rewrite Ht, Hrq. cbn [arrival_time].
      change (round (drawn w a 1)) with (round w).
      apply (running_sum_shift (fround (round w)) req_rate w a (g_t s) (S j)).
    + exists (a + a')%nat. rewrite drawn_drawn in Hp.
      split; [lia|]. split; [|exact Hp].
      intros Hsz. rewrite Hsmall, Hsmall' by exact Hsz. lia.
Qed.

(** A resumption of the generator beyond the end of its stream changes
    nothing: the resumptions that [req_generator_uniform] allows are
    enough. *)
Lemma drain_fuel_enough (G : Graph) (num_reqs : Z) (req_rate : Q) (fuel : nat) :
  ∀ (s : GenState) (w : World),
    (Z.to_nat (num_reqs - g_req_idx s) < fuel)%nat →
    drain (S fuel) G num_reqs req_rate s w = drain fuel G num_reqs req_rate s w.
Proof.
  induction fuel as [|fuel IH]; intros s w Hfuel; [lia|].
  change (drain (S (S fuel)) G num_reqs req_rate s w)
    with ((gen_next G num_reqs req_rate s ≫= λ r,
            match r with
            | None => mret []
            | Some (rq, s') =>
                drain (S fuel) G num_reqs req_rate s' ≫= λ rest, mret (rq :: rest)
            end) w).
  change (drain (S fuel) G num_reqs req_rate s w)
    with ((gen_next G num_reqs req_rate s ≫= λ r,
            match r with
            | None => mret []
            | Some (rq, s') =>
                drain fuel G num_reqs req_rate s' ≫= λ rest, mret (rq :: rest)
            end) w).
  unfold mbind at 1 3, M_bind at 1 3.
  destruct (gen_next G num_reqs req_rate s w) as [w1 [e|[[rq s1]|]]] eqn:Hnext;
    try reflexivity.
  pose proof Hnext as Hidx. unfold gen_next in Hidx.
  destruct (decide (g_req_idx s < num_reqs)) as [Hlt|]; [clear Hidx|discriminate].
  apply gen_next_inv in Hnext as (a & _ & _ & _ & _ & _ & _ & _ & Hrq & ->).
  unfold mbind, M_bind. rewrite IH; [reflexivity|].
  rewrite Hrq. simpl. lia.
Qed.

(** C6, as amended: on a graph of at least two nodes (on any graph when
    the count is zero), for a count of at least zero and a positive rate,
    the generator runs to the end of its stream, which holds exactly
    [num_reqs] requests whose indices are 1, 2, ..., [num_reqs] in the
    order of emission, whatever the random sources give. *)
Theorem stream_has_count_requests (G : Graph) (num_reqs : Z) (req_rate : Q)
    (w : World) :
  (2 ≤ length (nodes G))%nat ∨ num_reqs = 0 →
  0 ≤ num_reqs → (0 < req_rate)%Q →
  ∃ (w' : World) (reqs : list Request),
    req_generator_uniform G num_reqs req_rate w = (w', inr reqs)
    ∧ Z.of_nat (length reqs) = num_reqs
    ∧ sequence_index <$> reqs = seqZ 1 num_reqs.
Proof.
  intros [Hn | ->] Hcount Hr.
  2:{ exists w, []. repeat split. }
  destruct (drain_spec G num_reqs req_rate Hn Hr (Z.to_nat num_reqs)
              (S (Z.to_nat num_reqs)) (mkGenState 0 0) w)
    as (a & reqs & Hrun & _ & _ & Hlen).
  { simpl. f_equal. lia. }
  { lia. }
  pose proof (drain_inv _ _ _ _ _ _ _ _ Hrun) as Hall.
  eexists _, reqs. split; [exact Hrun|]. split; [lia|].
  apply (list_eq_same_length _ _ (Z.to_nat num_reqs)).
  - rewrite length_seqZ. reflexivity.
  - rewrite length_fmap. exact Hlen.
  - intros j x y Hj Hx Hy.
    rewrite list_lookup_fmap in Hx.
    destruct (reqs !! j) as [r|] eqn:Hrj; [|discriminate].
    injection Hx as <-.
    apply lookup_seqZ in Hy as [-> _].
    destruct (Hall j r Hrj) as [Hi _]. simpl in Hi. lia.
Qed.

(** *** Arrival times *)

Lemma fround_exact (q : Q) : (fround (λ x, x) q == q)%Q.
Proof.
  unfold fround. destruct (Qcompare q 0) eqn:Hc.
  - apply Qeq_alt in Hc. symmetry. exact Hc.
  - apply Qlt_alt in Hc. rewrite Qabs_pos by lra. lra.
  - apply Qgt_alt in Hc. apply Qabs_pos. lra.
Qed.

(** Exact arithmetic is one of the roundings that keep the order. *)
Lemma exact_rounding_ok : rounding_ok (λ x, x).
Proof.
  split.
  - intros x y Hxy. rewrite !fround_exact. exact Hxy.
  - intros x. rewrite !fround_exact. reflexivity.
Qed.

(** A running sum of numbers that are not negative, from a floating-point
    number on: every partial sum is a floating-point number, and the sums
    do not decrease. *)
Lemma running_sum_from_fixed (rnd : Q → Q) (f : nat → Q) (t : Q) (i : nat) :
  rounding_ok rnd → (fround rnd t == t)%Q →
  (fround rnd (running_sum_from (fround rnd) f t i)
   == running_sum_from (fround rnd) f t i)%Q.
Proof.
  intros [_ Hidem] Ht. destruct i as [|i]; [exact Ht | apply Hidem].
Qed.

Lemma running_sum_from_le (rnd : Q → Q) (f : nat → Q) (t : Q) :
  rounding_ok rnd → (fround rnd t == t)%Q → (∀ k, (0 <= f k)%Q) →
  ∀ i j : nat, (i ≤ j)%nat →
    (running_sum_from (fround rnd) f t i <= running_sum_from (fround rnd) f t j)%Q.
Proof.
  intros Hok Ht Hf i j Hij. induction Hij as [|j Hij IH]; [apply Qle_refl|].
  eapply Qle_trans; [exact IH|].
  rewrite <- (running_sum_from_fixed rnd f t j Hok Ht) at 1.
  simpl. apply Hok. pose proof (Hf j). lra.
Qed.

(** C7, as amended: in a stream consumed at a positive rate, the [k]-th
    inter-arrival time is the value of [np.random.exponential(1/req_rate)]
    at the [k]-th state of [numpy.random], a number that is not negative;
    the arrival time of the request at position [i] (the [i+1]-th) is the
    running sum of the first [i+1] of them, rounded at every addition; and,
    in an arithmetic whose rounding keeps the order, the arrival times do
    not decrease along the stream.  They need not increase: the rounding
    of a sum can absorb a small inter-arrival time, and a variate can be
    zero. *)
Theorem arrival_times_are_running_sums (G : Graph) (num_reqs : Z)
    (req_rate : Q) (w w' : World) (reqs : list Request) :
  rounding_ok (round w) → (0 < req_rate)%Q →
  req_generator_uniform G num_reqs req_rate w = (w', inr reqs) →
  (∀ k : nat,
     (np_exponential (fround (round w) (1 / req_rate)) (drawn w 0 k)).2
     = inr (inter_arrival req_rate w k)
     ∧ (0 <= inter_arrival req_rate w k)%Q)
  ∧ (∀ (i : nat) (r : Request), reqs !! i = Some r →
       arrival_time r
       = running_sum_from (fround (round w)) (inter_arrival req_rate w) 0 (S i))
  ∧ (∀ (i j : nat) (r r' : Request), (i < j)%nat →
       reqs !! i = Some r → reqs !! j = Some r' →
       (arrival_time r <= arrival_time r')%Q).
Proof.
  intros Hok Hr Hrun. unfold req_generator_uniform in Hrun.
  pose proof (drain_inv _ _ _ _ _ _ _ _ Hrun) as Hall.
  split; [|split].
  - intros k. split; [|apply inter_arrival_nonneg, Hr].
    rewrite np_exponential_scale
      by (apply fround_nonneg, Qlt_le_weak, inv_rate_pos, Hr).
    unfold inter_arrival, variate. simpl. reflexivity.
  - intros i r Hi. apply (Hall i r Hi).
  - intros i j r r' Hij Hi Hj.
    destruct (Hall i r Hi) as (_ & -> & _).
    destruct (Hall j r' Hj) as (_ & -> & _).
    apply running_sum_from_le; [exact Hok | reflexivity | | lia].
    intros k. apply inter_arrival_nonneg, Hr.
Qed.

(** *** The distribution of the pair of nodes *)

(** The two draws of [random.sample(population, k=2)] on a small population
    and what they select. *)
Lemma random_sample_two_eq (pool : list node) (w : World) :
  (2 ≤ length pool)%nat → (length pool ≤ setsize)%nat →
  let a := (py_tape w (py_pos w) `mod` length pool)%nat in
  let b := (py_tape w (py_pos w + 1) `mod` (length pool - 1))%nat in
  ∃ x y, pool !! a = Some x ∧ pool_without pool a !! b = Some y
         ∧ random_sample pool 2 w = (drawn w 2 0, inr [x; y]).
Proof.
  intros Hn Hsmall a b.
  assert (a < length pool)%nat as Ha by (apply Nat.mod_upper_bound; lia).
  pose proof (pool_without_length pool a Ha) as Hlen.
  assert (b < length (pool_without pool a))%nat as Hb.
  { rewrite Hlen. apply Nat.mod_upper_bound. lia. }
  apply lookup_lt_is_Some_2 in Ha as [x Hx].
  apply lookup_lt_is_Some_2 in Hb as [y Hy].
  exists x, y. split; [exact Hx|]. split; [exact Hy|].
  unfold random_sample. rewrite decide_True by exact Hn.
  rewrite decide_True by exact Hsmall.
  simpl sample_pool.
  erewrite bind_value by reflexivity. fold a. rewrite Hx.
  erewrite bind_value; [reflexivity|].
  erewrite bind_value by reflexivity.
  rewrite Hlen.
  change (py_tape (drawn w 1 0) (py_pos (drawn w 1 0)))
    with (py_tape w (py_pos w + 1)).
  fold b. rewrite Hy.
  erewrite bind_value by reflexivity.
  rewrite drawn_drawn. reflexivity.
Qed.

(** On a small graph each ordered pair of distinct nodes is selected by
    exactly one pair of draws. *)
Lemma random_sample_two_bijective (G : Graph) (u v : node) :
  (length (nodes G) ≤ setsize)%nat →
  u ∈ nodes G → v ∈ nodes G → u ≠ v →
  ∃ j1 j2 : nat,
    (j1 < length (nodes G))%nat ∧ (j2 < length (nodes G) - 1)%nat
    ∧ ∀ w : World,
        (random_sample (nodes G) 2 w).2 = inr [u; v]
        ↔ (py_tape w (py_pos w) `mod` length (nodes G))%nat = j1
          ∧ (py_tape w (py_pos w + 1) `mod` (length (nodes G) - 1))%nat = j2.
Proof.
  intros Hsmall Hu Hv Hne.
  apply list_elem_of_lookup_1 in Hu as [j1 Hj1].
  pose proof (pool_without_perm _ _ _ Hj1) as Hperm.
  assert (v ∈ pool_without (nodes G) j1) as Hv'.
  { rewrite Hperm in Hv. apply elem_of_cons in Hv as [->|Hv]; [congruence|exact Hv]. }
  apply list_elem_of_lookup_1 in Hv' as [j2 Hj2].
  pose proof (lookup_lt_Some _ _ _ Hj1) as Hlt1.
  pose proof (lookup_lt_Some _ _ _ Hj2) as Hlt2.
  rewrite pool_without_length in Hlt2 by exact Hlt1.
  pose proof (nodes_NoDup G) as Hnd.
  assert (NoDup (pool_without (nodes G) j1)) as Hnd'.
  { rewrite Hperm in Hnd. apply NoDup_cons in Hnd as [_ Hnd]. exact Hnd. }
  exists j1, j2. split; [exact Hlt1|]. split; [exact Hlt2|].
  intros w.
  destruct (random_sample_two_eq (nodes G) w ltac:(lia) Hsmall)
    as (x & y & Hx & Hy & ->).
  simpl. split.
  - intros [= -> ->].
    pose proof (NoDup_lookup _ _ _ _ Hnd Hx Hj1) as Ha.
    split; [exact Ha|]. rewrite Ha in Hy.
    exact (NoDup_lookup _ _ _ _ Hnd' Hy Hj2).
  - intros [Ha Hb]. rewrite Ha in Hx, Hy. rewrite Hb in Hy.
    congruence.
Qed.

(** When [r] candidates in a row are the position selected before and the
    next one is not, the loop takes [r] draws and ends with that one. *)
Lemma redraw_repeats (n j1 : nat) (r : nat) :
  ∀ (fuel j : nat) (w : World),
    (r ≤ fuel)%nat →
    (∀ i, (i < r)%nat → candidate n j w i = j1) →
    candidate n j w r ≠ j1 →
    redraw fuel n [j1] j w = (drawn w r 0, inr (candidate n j w r)).
Proof.
  induction r as [|r IH]; intros fuel j w Hfuel Hrep Hnew.
  - simpl in Hnew. rewrite drawn_0.
    destruct fuel; simpl; rewrite decide_False; try reflexivity;
      intros Hin; apply list_elem_of_singleton in Hin; contradiction.
  - destruct fuel as [|fuel]; [lia|]. simpl redraw.
    rewrite decide_True
      by (apply list_elem_of_singleton; apply (Hrep 0%nat); lia).
    erewrite bind_value by reflexivity.
    rewrite (IH fuel _ (drawn w 1 0)).
    + rewrite drawn_drawn. f_equal. f_equal.
      destruct r as [|r]; simpl; [rewrite Nat.add_0_r; reflexivity|].
      rewrite <- Nat.add_assoc. reflexivity.
    + lia.
    + intros i Hi. specialize (Hrep (S i) ltac:(lia)).
      destruct i as [|i]; simpl in *; [rewrite Nat.add_0_r in Hrep; exact Hrep|].
      rewrite <- Nat.add_assoc. exact Hrep.
    + destruct r as [|r]; simpl in *;
        [rewrite Nat.add_0_r in Hnew; exact Hnew|].
      rewrite <- Nat.add_assoc. exact Hnew.
Qed.

Lemma redraw_free (fuel n : nat) (selected : list nat) (j : nat) (w : World) :
  j ∉ selected → redraw fuel n selected j w = (w, inr j).
Proof.
  intros Hfree. destruct fuel; simpl; rewrite decide_False by exact Hfree;
    reflexivity.
Qed.

Lemma sample_reject_S (population : list node) (k : nat) (selected : list nat)
    (w : World) :
  sample_reject population (S k) selected w
  = ((j0 ← randbelow (length population);
      j ← redraw patience (length population) selected j0;
      match population !! j with
      | Some v =>
          rest ← sample_reject population k (j :: selected);
          mret (v :: rest)
      | None => raise (ValueError "empty range for randrange()")
      end) : M (list node)) w.
Proof. reflexivity. Qed.

(** The draws of [random.sample(population, k=2)] on a large population and
    what they select: the element at the first position drawn, and, after
    [r] draws that repeat that position, the element at the next position
    drawn. *)
Lemma random_sample_two_large (pool : list node) (w : World) (r : nat)
    (x y : node) :
  (setsize < length pool)%nat → (r ≤ patience)%nat →
  let d := λ i, (py_tape w (py_pos w + i) `mod` length pool)%nat in
  (∀ i, (1 ≤ i ≤ r)%nat → d i = d 0%nat) → d (S r) ≠ d 0%nat →
  pool !! d 0%nat = Some x → pool !! d (S r) = Some y →
  random_sample pool 2 w = (drawn w (2 + r) 0, inr [x; y]).
Proof.
  intros Hlarge Hr d Hrep Hnew Hx Hy.
  assert ((py_tape w (py_pos w) `mod` length pool)%nat = d 0%nat) as Hd0
      by (unfold d; rewrite Nat.add_0_r; reflexivity).
  set (j0 := (py_tape (drawn w 1 0) (py_pos (drawn w 1 0)) `mod` length pool)%nat).
  assert (∀ i, candidate (length pool) j0 (drawn (drawn w 1 0) 1 0) i = d (S i))
    as Hcand.
  { intros [|i]; unfold d, j0; simpl; do 2 f_equal; lia. }
  unfold random_sample, setsize in *.
  rewrite decide_True by lia. rewrite decide_False by lia.
  rewrite sample_reject_S.
  erewrite bind_value by reflexivity. rewrite Hd0.
  erewrite bind_value by (apply redraw_free; inversion 1).
  rewrite Hx.
  erewrite bind_value; last first.
  { rewrite sample_reject_S.
    erewrite bind_value by reflexivity. fold j0.
    erewrite bind_value; last first.
    { apply (redraw_repeats (length pool) (d 0%nat) r patience j0
               (drawn (drawn w 1 0) 1 0) Hr).
      - intros i Hi. rewrite Hcand. apply Hrep. lia.
      - rewrite Hcand. exact Hnew. }
    rewrite Hcand, Hy.
    erewrite bind_value by reflexivity. reflexivity. }
  rewrite !drawn_drawn. reflexivity.
Qed.

(** On a large graph each ordered pair of distinct nodes is selected by
    exactly one pair of positions, the first one drawn and the first one
    drawn after it that differs from it. *)
Lemma random_sample_two_large_iff (G : Graph) (u v : node) :
  (setsize < length (nodes G))%nat →
  u ∈ nodes G → v ∈ nodes G → u ≠ v →
  ∃ j1 j2 : nat,
    (j1 < length (nodes G))%nat ∧ (j2 < length (nodes G))%nat ∧ j1 ≠ j2
    ∧ ∀ (w : World) (r : nat),
        (r ≤ patience)%nat →
        (∀ i, (1 ≤ i ≤ r)%nat →
           draw_at (length (nodes G)) w i = draw_at (length (nodes G)) w 0) →
        draw_at (length (nodes G)) w (S r) ≠ draw_at (length (nodes G)) w 0 →
        (random_sample (nodes G) 2 w).1 = drawn w (2 + r) 0
        ∧ ((random_sample (nodes G) 2 w).2 = inr [u; v]
           ↔ draw_at (length (nodes G)) w 0 = j1
             ∧ draw_at (length (nodes G)) w (S r) = j2).
Proof.
  intros Hlarge Hu Hv Hne.
  apply list_elem_of_lookup_1 in Hu as [j1 Hj1].
  apply list_elem_of_lookup_1 in Hv as [j2 Hj2].
  pose proof (lookup_lt_Some _ _ _ Hj1) as Hlt1.
  pose proof (lookup_lt_Some _ _ _ Hj2) as Hlt2.
  pose proof (nodes_NoDup G) as Hnd.
  exists j1, j2. split; [exact Hlt1|]. split; [exact Hlt2|].
  split; [intros ->; congruence|].
  intros w r Hr Hrep Hnew.
  assert (draw_at (length (nodes G)) w 0 < length (nodes G))%nat as Hd0
      by (apply Nat.mod_upper_bound; lia).
  assert (draw_at (length (nodes G)) w (S r) < length (nodes G))%nat as Hd1
      by (apply Nat.mod_upper_bound; lia).
  apply lookup_lt_is_Some_2 in Hd0 as [x Hx].
  apply lookup_lt_is_Some_2 in Hd1 as [y Hy].
  rewrite (random_sample_two_large (nodes G) w r x y Hlarge Hr Hrep Hnew Hx Hy).
  split; [reflexivity|]. simpl. split.
  - intros [= -> ->]. split; eapply NoDup_lookup; eassumption.
  - intros [Ha Hb]. rewrite Ha in Hx. rewrite Hb in Hy. congruence.
Qed.

(** What a resumption does once its pair of nodes is drawn. *)
Lemma gen_next_run (G : Graph) (num_reqs : Z) (req_rate : Q) (s : GenState)
    (w : World) (a : nat) (orig dest : node) :
  (0 < req_rate)%Q → g_req_idx s < num_reqs →
  random_sample (nodes G) 2 w = (drawn w a 0, inr [orig; dest]) →
  gen_next G num_reqs req_rate s w
  = (drawn w a 1,
     inr (Some (mkRequest (g_req_idx s + 1)
                  (fround (round w) (g_t s + inter_arrival req_rate w 0))
                  orig dest,
                mkGenState
                  (fround (round w) (g_t s + inter_arrival req_rate w 0))
                  (g_req_idx s + 1)))).
Proof.
  intros Hr Hidx Hs.
  unfold gen_next. rewrite decide_True by exact Hidx.
  erewrite bind_value by exact Hs. cbv beta iota.
  pose proof (next_time_spec req_rate (g_t s) (drawn w a 0) Hr) as Hnext.
  rewrite drawn_drawn in Hnext.
  rewrite (inter_arrival_drawn req_rate w a 0 0) in Hnext.
  rewrite Nat.add_0_r in Hnext. simpl Nat.add in Hnext.
  change (round (drawn w a 0)) with (round w) in Hnext.
  unfold mbind, M_bind in Hnext |- *.
  destruct (fdiv 1 req_rate (drawn w a 0)) as [w1 [e|scale]]; [discriminate|].
  destruct (np_exponential scale w1) as [w2 [e|delta_t]]; [discriminate|].
  injection Hnext as -> <-. reflexivity.
Qed.

(** Two worlds whose next two draws are the same, and differ from each
    other on a large population, give the same sample after two draws. *)
Lemma random_sample_two_draws (pool : list node) (w1 w2 : World) :
  (2 ≤ length pool)%nat →
  py_tape w1 (py_pos w1) = py_tape w2 (py_pos w2) →
  py_tape w1 (py_pos w1 + 1) = py_tape w2 (py_pos w2 + 1) →
  ((setsize < length pool)%nat →
   draw_at (length pool) w1 0 ≠ draw_at (length pool) w1 1) →
  ∃ x y : node,
    random_sample pool 2 w1 = (drawn w1 2 0, inr [x; y])
    ∧ random_sample pool 2 w2 = (drawn w2 2 0, inr [x; y]).
Proof.
  intros Hn H0 H1 Hdiff.
  destruct (decide (length pool ≤ setsize)%nat) as [Hsmall|Hlarge].
  - destruct (random_sample_two_eq pool w1 Hn Hsmall) as (x & y & Hx & Hy & Hs1).
    destruct (random_sample_two_eq pool w2 Hn Hsmall) as (x' & y' & Hx' & Hy' & Hs2).
    rewrite <- H0 in Hx', Hy'. rewrite <- H1 in Hy'.
    exists x, y. split; [exact Hs1|]. rewrite Hs2. congruence.
  - assert (setsize < length pool)%nat as Hl by lia.
    specialize (Hdiff Hl). unfold draw_at in Hdiff.
    assert (py_tape w2 (py_pos w2 + 0) = py_tape w1 (py_pos w1 + 0)) as H0'
        by (rewrite !Nat.add_0_r; congruence).
    assert (py_tape w1 (py_pos w1 + 0) `mod` length pool < length pool)%nat as Hd0
        by (apply Nat.mod_upper_bound; lia).
    assert (py_tape w1 (py_pos w1 + 1) `mod` length pool < length pool)%nat as Hd1
        by (apply Nat.mod_upper_bound; lia).
    apply lookup_lt_is_Some_2 in Hd0 as [x Hx].
    apply lookup_lt_is_Some_2 in Hd1 as [y Hy].
    exists x, y. split.
    + apply (random_sample_two_large pool w1 0 x y Hl); auto; lia.
    + apply (random_sample_two_large pool w2 0 x y Hl); try lia; cbv beta.
      * rewrite H0', <- H1. auto.
      * rewrite H0'. exact Hx.
      * rewrite <- H1. exact Hy.
Qed.

(** A pair of nodes can come again: when the draws of [random] alternate
    between 0 and 1, the two requests of a stream have the same origin and
    the same destination. *)
Lemma pair_can_recur (G : Graph) :
  (2 ≤ length (nodes G))%nat →
  ∃ (w' : World) (r1 r2 : Request),
    req_generator_uniform G 2 1 alternating_world = (w', inr [r1; r2])
    ∧ origin r1 = origin r2 ∧ destination r1 = destination r2.
Proof.
  intros Hn. set (w := alternating_world).
  destruct (random_sample_two_draws (nodes G) w (drawn w 2 1) Hn)
    as (x & y & Hs1 & Hs2).
  { reflexivity. }
  { reflexivity. }
  { intros Hlarge. unfold draw_at, setsize in *. simpl.
    rewrite !Nat.mod_small by lia. discriminate. }
  assert (0 < 1)%Q as Hr by reflexivity.
  eexists _, _, _. split.
  { unfold req_generator_uniform. simpl drain.
    erewrite bind_value
      by (apply gen_next_run; [exact Hr | simpl; lia | exact Hs1]).
    cbv beta iota.
    erewrite bind_value; last first.
    { erewrite bind_value
        by (apply gen_next_run; [exact Hr | simpl; lia | exact Hs2]).
      cbv beta iota.
      erewrite bind_value; last first.
      { erewrite bind_value; last first.
        { unfold gen_next. rewrite decide_False by (simpl; lia). reflexivity. }
        reflexivity. }
      reflexivity. }
    reflexivity. }
  split; reflexivity.
Qed.

Lemma star_nodes : nodes (star_graph 100) = int_nodes 101.
Proof. vm_compute. reflexivity. Qed.

(** C8: in a stream consumed without an exception, every request has an
    origin and a destination that are distinct nodes of the graph, and they
    are the value of [random.sample(graph.nodes(), k=2)] at the state of
    the random sources that the request meets, which keeps nothing of the
    earlier requests but the number of draws they took; a pair can come
    again in the same stream.  The sample is uniform.  On a graph of at
    most 21 nodes each ordered pair of distinct nodes is the value for
    exactly one pair of draws, the first below the number of nodes and the
    second below that number less one.  On a larger graph a position is
    drawn below the number of nodes, then a position is drawn until it
    differs from the first, and each ordered pair of distinct nodes is the
    value for exactly one such pair of positions.  The nodes of the star
    graph of 100 leaves are 0, 1, ..., 100, the hub 0 among them, and the
    sample ranges over all of them. *)
Theorem origin_and_destination_are_sampled :
  (∀ (G : Graph) (num_reqs : Z) (req_rate : Q) (w w' : World)
     (reqs : list Request) (i : nat) (r : Request),
     req_generator_uniform G num_reqs req_rate w = (w', inr reqs) →
     reqs !! i = Some r →
     origin r ≠ destination r
     ∧ origin r ∈ nodes G ∧ destination r ∈ nodes G
     ∧ ∃ a : nat,
         (2 * i ≤ a)%nat
         ∧ ((length (nodes G) ≤ setsize)%nat → a = (2 * i)%nat)
         ∧ (random_sample (nodes G) 2 (drawn w a i)).2
           = inr [origin r; destination r])
  ∧ (∀ G : Graph, (2 ≤ length (nodes G))%nat →
       ∃ (w' : World) (r1 r2 : Request),
         req_generator_uniform G 2 1 alternating_world = (w', inr [r1; r2])
         ∧ origin r1 = origin r2 ∧ destination r1 = destination r2)
  ∧ (∀ (G : Graph) (u v : node),
       (length (nodes G) ≤ setsize)%nat →
       u ∈ nodes G → v ∈ nodes G → u ≠ v →
       ∃ j1 j2 : nat,
         (j1 < length (nodes G))%nat ∧ (j2 < length (nodes G) - 1)%nat
         ∧ ∀ w : World,
             (random_sample (nodes G) 2 w).2 = inr [u; v]
             ↔ draw_at (length (nodes G)) w 0 = j1
               ∧ draw_at (length (nodes G) - 1) w 1 = j2)
  ∧ (∀ (G : Graph) (u v : node),
       (setsize < length (nodes G))%nat →
       u ∈ nodes G → v ∈ nodes G → u ≠ v →
       ∃ j1 j2 : nat,
         (j1 < length (nodes G))%nat ∧ (j2 < length (nodes G))%nat ∧ j1 ≠ j2
         ∧ ∀ (w : World) (r : nat),
             (r ≤ patience)%nat →
             (∀ i, (1 ≤ i ≤ r)%nat →
                draw_at (length (nodes G)) w i = draw_at (length (nodes G)) w 0) →
             draw_at (length (nodes G)) w (S r) ≠ draw_at (length (nodes G)) w 0 →
             (random_sample (nodes G) 2 w).1 = drawn w (2 + r) 0
             ∧ ((random_sample (nodes G) 2 w).2 = inr [u; v]
                ↔ draw_at (length (nodes G)) w 0 = j1
                  ∧ draw_at (length (nodes G)) w (S r) = j2))
  ∧ nodes (star_graph 100) = int_nodes 101.
Proof.
  split; [|split; [|split; [|split]]].
  - intros G num_reqs req_rate w w' reqs i r Hrun Hi.
    destruct (drain_inv _ _ _ _ _ _ _ _ Hrun i r Hi) as (_ & _ & Hp & Hne & Ho & Hd).
    auto.
  - apply pair_can_recur.
  - intros G u v Hsmall Hu Hv Hne.
    destruct (random_sample_two_bijective G u v Hsmall Hu Hv Hne)
      as (j1 & j2 & Hj1 & Hj2 & Hiff).
    exists j1, j2. split; [exact Hj1|]. split; [exact Hj2|].
    intros w. unfold draw_at. rewrite Nat.add_0_r. apply Hiff.
  - apply random_sample_two_large_iff.
  - exact star_nodes.
Qed.

(** *** What a computation can do to the world *)

Section Invariant.

(** A relation between the worlds before and after a computation that
    holds at every step holds for a sequence of steps, whether it ends in
    a value or in an exception. *)
Variable R : World → World → Prop.
Hypothesis R_refl : ∀ w, R w w.
Hypothesis R_trans : ∀ w1 w2 w3, R w1 w2 → R w2 w3 → R w1 w3.

Lemma keeps_ret {A : Type} (a : A) : keeps R (mret a).
Proof. intros w. apply R_refl. Qed.

Lemma keeps_raise {A : Type} (e : exn) : keeps R (@raise _ _ A e).
Proof. intros w. apply R_refl. Qed.

Lemma keeps_lift_exn {A : Type} (r : exn + A) : keeps R (lift_exn r).
Proof. intros w. apply R_refl. Qed.

Lemma keeps_fl (q : Q) : keeps R (fl q).
Proof. intros w. apply R_refl. Qed.

Lemma keeps_fdiv (a b : Q) : keeps R (fdiv a b).
Proof. unfold fdiv. destruct (Qeq_bool b 0); [apply keeps_raise | apply keeps_fl]. Qed.

Lemma keeps_bind {A B : Type} (m : M A) (f : A → M B) :
  keeps R m → (∀ a, keeps R (f a)) → keeps R (m ≫= f).
Proof.
  intros Hm Hf w. specialize (Hm w). unfold mbind, M_bind.
  destruct (m w) as [w1 [e|a]]; simpl in *; [exact Hm|].
  eapply R_trans; [exact Hm | apply Hf].
Qed.

Hypothesis R_drawn : ∀ w a b, R w (drawn w a b).

Lemma keeps_randbelow (n : nat) : keeps R (randbelow n).
Proof. intros w. apply R_drawn. Qed.

Lemma keeps_np_exponential (scale : Q) : keeps R (np_exponential scale).
Proof.
  intros w. unfold np_exponential.
  destruct (Qlt_le_dec scale 0); [apply R_refl | apply R_drawn].
Qed.

Lemma keeps_sample_pool (k : nat) : ∀ pool, keeps R (sample_pool pool k).
Proof.
  induction k as [|k IH]; intros pool; simpl.
  - apply keeps_ret.
  - apply keeps_bind; [apply keeps_randbelow|].
    intros j. destruct (pool !! j); [|apply keeps_raise].
    apply keeps_bind; [apply IH | intros; apply keeps_ret].
Qed.

Lemma keeps_redraw (n : nat) (selected : list nat) (fuel : nat) :
  ∀ j, keeps R (redraw fuel n selected j).
Proof.
  induction fuel as [|fuel IH]; intros j; simpl;
    destruct (decide (j ∈ selected)); try apply keeps_ret.
  apply keeps_bind; [apply keeps_randbelow | apply IH].
Qed.

Lemma keeps_sample_reject (population : list node) (k : nat) :
  ∀ selected, keeps R (sample_reject population k selected).
Proof.
  induction k as [|k IH]; intros selected.
  - apply keeps_ret.
  - intros w. rewrite sample_reject_S. revert w.
    apply keeps_bind; [apply keeps_randbelow|]. intros j0.
    apply keeps_bind; [apply keeps_redraw|]. intros j.
    destruct (population !! j); [|apply keeps_raise].
    apply keeps_bind; [apply IH | intros; apply keeps_ret].
Qed.

Lemma keeps_random_sample (pool : list node) (k : nat) :
  keeps R (random_sample pool k).
Proof.
  unfold random_sample. destruct (decide _); [|apply keeps_raise].
  destruct (decide _); [apply keeps_sample_pool | apply keeps_sample_reject].
Qed.

Lemma keeps_gen_next (G : Graph) (num_reqs : Z) (req_rate : Q) (s : GenState) :
  keeps R (gen_next G num_reqs req_rate s).
Proof.
  unfold gen_next. destruct (decide _); [|apply keeps_ret].
  apply keeps_bind; [apply keeps_random_sample|].
  intros [|o [|d [|? ?]]]; try apply keeps_raise.
  apply keeps_bind; [apply keeps_fdiv | intros scale].
  apply keeps_bind; [apply keeps_np_exponential | intros delta_t].
  apply keeps_bind; [apply keeps_fl | intros; apply keeps_ret].
Qed.

Lemma keeps_drain (G : Graph) (num_reqs : Z) (req_rate : Q) (fuel : nat) :
  ∀ s, keeps R (drain fuel G num_reqs req_rate s).
Proof.
  induction fuel as [|fuel IH]; intros s; simpl.
  - apply keeps_ret.
  - apply keeps_bind; [apply keeps_gen_next|].
    intros [[rq s']|]; [|apply keeps_ret].
    apply keeps_bind; [apply IH | intros; apply keeps_ret].
Qed.

Lemma keeps_req_generator_uniform (G : Graph) (num_reqs : Z) (req_rate : Q) :
  keeps R (req_generator_uniform G num_reqs req_rate).
Proof. apply keeps_drain. Qed.

(** One request rate, given that its three actions keep the relation. *)
Lemma keeps_simulate_single_request_rate (G : Graph) (nG : Network) (x : Q)
    (network_type : string) (l_avg : Q) :
  (∀ rate start, keeps R (log (EvZeroDetourBus nG G 10000 rate
                                             network_type start))) →
  keeps R (log (EvPrintSimulating x)) →
  (∀ reqs, keeps R (log (EvSimulateAll reqs))) →
  keeps R (simulate_single_request_rate engine G nG x network_type l_avg).
Proof.
  intros Hbus Hprint Hsim. unfold simulate_single_request_rate.
  apply keeps_bind; [apply keeps_fdiv | intros half].
  apply keeps_bind; [apply keeps_fdiv | intros req_rate].
  apply keeps_bind; [apply keeps_random_sample|].
  intros [|start ?]; [apply keeps_raise|].
  apply keeps_bind; [apply Hbus|]. intros _.
  apply keeps_bind; [apply Hprint|]. intros _.
  apply keeps_bind; [apply keeps_req_generator_uniform|]. intros reqs.
  apply keeps_bind; [apply Hsim|]. intros _. apply keeps_ret.
Qed.

Lemma keeps_call_global (genv : gmap string pyobj) (name : string)
    (G : Graph) (nG : Network) (x : Q) (network_type : string) (l_avg : Q) :
  (∀ f, genv !! name = Some (PyFunction f) →
        keeps R (f G nG x network_type l_avg)) →
  keeps R (call_global genv name G nG x network_type l_avg).
Proof.
  intros Hf. unfold call_global.
  destruct (genv !! name) as [[f|]|]; [apply Hf; reflexivity | |];
    apply keeps_raise.
Qed.

(** The loop, given that the callee at every sweep value and the dump keep
    the relation. *)
Lemma keeps_sweep_loop (genv : gmap string pyobj) (G : Graph) (nG : Network)
    (network_type : string) (l_avg : Q) (pickle_path : string) (xs : list Q) :
  (∀ f x, genv !! "simulate_simgle_request_rate" = Some (PyFunction f) →
          x ∈ xs → keeps R (f G nG x network_type l_avg)) →
  (∀ s, keeps R (pickle_dump pickle_path s)) →
  ∀ result,
    keeps R (sweep_loop genv G nG network_type l_avg pickle_path xs result).
Proof.
  intros Hf Hdump. induction xs as [|x xs IH]; intros result; simpl.
  - apply keeps_ret.
  - apply keeps_bind.
    + unfold sweep_step. apply keeps_bind.
      * apply keeps_call_global. intros f Hlook. apply (Hf f x Hlook). left.
      * intros rd. apply keeps_bind; [apply Hdump | intros; apply keeps_ret].
    + intros result'. apply IH. intros f y Hlook Hy. apply (Hf f y Hlook).
      right. exact Hy.
Qed.

End Invariant.

Lemma same_files_trans (w1 w2 w3 : World) :
  same_files w1 w2 → same_files w2 w3 → same_files w1 w3.
Proof. unfold same_files. congruence. Qed.

(** One request rate never touches the files, whether it returns or
    raises. *)
Lemma single_rate_keeps_files (G : Graph) (nG : Network) (x : Q)
    (network_type : string) (l_avg : Q) :
  keeps same_files
        (simulate_single_request_rate engine G nG x network_type l_avg).
Proof.
  apply (keeps_simulate_single_request_rate same_files
           (λ w, eq_refl) same_files_trans (λ w a b, eq_refl));
    intros; intros w; reflexivity.
Qed.

(** *** The rate *)

(** With a divisor that is zero as a number the quotient is zero, and so
    is the rate. *)
Lemma normalize_zero (rnd : Q → Q) (x l_avg : Q) :
  (l_avg == 0)%Q → normalize rnd x l_avg = 0%Q.
Proof.
  intros Hl. unfold normalize.
  assert (fround rnd (x / 2) / l_avg == 0)%Q as H0.
  { unfold Qdiv. rewrite Hl. unfold Qinv. simpl. ring. }
  unfold fround at 1. apply Qeq_alt in H0. rewrite H0. reflexivity.
Qed.

Lemma normalize_pos_nonzero (rnd : Q → Q) (x l_avg : Q) :
  (0 < normalize rnd x l_avg)%Q → ¬ (l_avg == 0)%Q.
Proof.
  intros Hpos Hl. rewrite (normalize_zero rnd x l_avg Hl) in Hpos. discriminate.
Qed.

(** Line 88 for an [l_avg] that is not zero. *)
Lemma rate_spec (x l_avg : Q) (w : World) :
  ¬ (l_avg == 0)%Q →
  (half ← fdiv x 2; fdiv half l_avg) w = (w, inr (normalize (round w) x l_avg)).
Proof.
  intros Hl. erewrite bind_value by (apply fdiv_spec; discriminate).
  rewrite fdiv_spec by exact Hl. reflexivity.
Qed.





(** *** One request rate *)

Lemma drawn_logged (w : World) (a b : nat) (es : list event) :
  drawn (logged w es) a b = logged (drawn w a b) es.
Proof. reflexivity. Qed.

(** The draw of [random.sample(population, k=1)] and what it selects. *)
Lemma random_sample_one_eq (pool : list node) (w : World) :
  (1 ≤ length pool)%nat →
  ∃ x, pool !! draw_at (length pool) w 0 = Some x
       ∧ random_sample pool 1 w = (drawn w 1 0, inr [x]).
Proof.
  intros Hn. unfold draw_at. rewrite Nat.add_0_r.
  assert (py_tape w (py_pos w) `mod` length pool < length pool)%nat as Ha
      by (apply Nat.mod_upper_bound; lia).
  apply lookup_lt_is_Some_2 in Ha as [x Hx].
  exists x. split; [exact Hx|].
  unfold random_sample. rewrite decide_True by exact Hn.
  destruct (decide (length pool ≤ setsize)%nat).
  - simpl sample_pool.
    erewrite bind_value by reflexivity. rewrite Hx.
    erewrite bind_value by reflexivity. reflexivity.
  - rewrite sample_reject_S.
    erewrite bind_value by reflexivity.
    erewrite bind_value by (apply redraw_free; inversion 1).
    rewrite Hx.
    erewrite bind_value by reflexivity. reflexivity.
Qed.

(** One request rate on a graph of at least two nodes at a positive rate:
    the rate is computed, the start node is drawn, the engine is built, the
    message is printed, the stream of 10000 requests at that rate is
    consumed, and the engine's data are returned.  The files are not
    touched. *)
Lemma single_rate_spec (G : Graph) (nG : Network) (x : Q)
    (network_type : string) (l_avg : Q) (w : World) :
  (2 ≤ length (nodes G))%nat → (0 < normalize (round w) x l_avg)%Q →
  ∃ (start : node) (reqs : list Request) (a : nat),
    nodes G !! draw_at (length (nodes G)) w 0 = Some start
    ∧ Z.of_nat (length reqs) = 10000
    ∧ (2 * Z.to_nat 10000 ≤ a)%nat
    ∧ ((length (nodes G) ≤ setsize)%nat → a = (2 * Z.to_nat 10000)%nat)
    ∧ req_generator_uniform G 10000 (normalize (round w) x l_avg)
        (logged (drawn w 1 0)
           [EvZeroDetourBus nG G 10000 (normalize (round w) x l_avg)
              network_type start;
            EvPrintSimulating x])
      = (logged (drawn w (1 + a) (Z.to_nat 10000))
           [EvZeroDetourBus nG G 10000 (normalize (round w) x l_avg)
              network_type start;
            EvPrintSimulating x],
         inr reqs)
    ∧ simulate_single_request_rate engine G nG x network_type l_avg w
      = (logged (drawn w (1 + a) (Z.to_nat 10000))
           [EvZeroDetourBus nG G 10000 (normalize (round w) x l_avg)
              network_type start;
            EvPrintSimulating x; EvSimulateAll reqs],
         inr (engine nG reqs network_type start)).
Proof.
  intros Hn Hr.
  destruct (random_sample_one_eq (nodes G) w ltac:(lia)) as (start & Hstart & Hs).
  set (rate := normalize (round w) x l_avg) in *.
  set (w1 := logged (drawn w 1 0)
               [EvZeroDetourBus nG G 10000 rate network_type start;
                EvPrintSimulating x]).
  destruct (drain_spec G 10000 rate Hn Hr (Z.to_nat 10000)
              (S (Z.to_nat 10000)) (mkGenState 0 0) w1)
    as (a & reqs & Hrun & Ha & Hsmall & Hlen); [reflexivity | lia |].
  assert (drawn w1 a (Z.to_nat 10000)
          = logged (drawn w (1 + a) (Z.to_nat 10000))
              [EvZeroDetourBus nG G 10000 rate network_type start;
               EvPrintSimulating x]) as Hw.
  { unfold w1. rewrite drawn_logged, drawn_drawn. reflexivity. }
  rewrite Hw in Hrun.
  exists start, reqs, a. split; [exact Hstart|]. split; [lia|].
  split; [exact Ha|]. split; [exact Hsmall|]. split; [exact Hrun|].
  unfold simulate_single_request_rate.
  pose proof (rate_spec x l_avg w (normalize_pos_nonzero _ _ _ Hr)) as Hrate.
  fold rate in Hrate. unfold mbind, M_bind in Hrate |- *.
  destruct (fdiv x 2 w) as [w0 [e|half]]; [discriminate|].
  rewrite Hrate. fold (@mbind M _). clear Hrate.
  change ((random_sample (nodes G) 1 ≫= λ st,
            match st with
            | [] => raise (ValueError "list index out of range")
            | start :: _ =>
                log (EvZeroDetourBus nG G 10000 rate network_type start) ≫= λ _,
                log (EvPrintSimulating x) ≫= λ _,
                req_generator_uniform G 10000 rate ≫= λ reqs,
                log (EvSimulateAll reqs) ≫= λ _,
                mret (engine nG reqs network_type start)
            end) w
          = (logged (drawn w (1 + a) (Z.to_nat 10000))
               [EvZeroDetourBus nG G 10000 rate network_type start;
                EvPrintSimulating x; EvSimulateAll reqs],
             inr (engine nG reqs network_type start))).
  erewrite bind_value by exact Hs. cbv beta iota zeta.
  erewrite bind_value by apply log_spec.
  erewrite bind_value by apply log_spec.
  rewrite logged_logged. simpl app. fold w1.
  erewrite bind_value by exact Hrun.
  erewrite bind_value by apply log_spec.
  rewrite logged_logged. reflexivity.
Qed.


(** *** The sequence of experiments *)

Lemma run_blocks_app (bs1 bs2 : list (M unit)) (w : World) :
  run_blocks (bs1 ++ bs2) w
  = match run_blocks bs1 w with
    | (w1, inr _) => run_blocks bs2 w1
    | (w1, inl e) => (w1, inl e)
    end.
Proof.
  revert w. induction bs1 as [|b bs1 IH]; intros w; [reflexivity|].
  simpl. unfold mbind, M_bind.
  destruct (b w) as [w1 [e|[]]]; [reflexivity | apply IH].
Qed.

(** C2, as amended: the experiments run in the order of the list with no
    handler in between, so when the experiments before one have run and
    that one raises, the script ends there with its exception, in the
    world in which it was raised: no later experiment is started. *)
Theorem failure_ends_the_script (genv : gmap string pyobj) (w : World)
    (bs1 bs2 : list (M unit)) (b : M unit) (e : exn) :
  experiments genv = bs1 ++ b :: bs2 →
  (run_blocks bs1 w).2 = inr () →
  (b (run_blocks bs1 w).1).2 = inl e →
  main genv w = ((b (run_blocks bs1 w).1).1, inl e).
Proof.
  intros Hsplit Hbefore Hfail. unfold main. rewrite Hsplit, run_blocks_app.
  destruct (run_blocks bs1 w) as [w1 [e1|[]]]; [discriminate|].
  simpl in *. unfold mbind, M_bind.
  destruct (b w1) as [w2 [e2|[]]]; [|discriminate].
  simpl in Hfail |- *. injection Hfail as ->. reflexivity.
Qed.

Lemma ring10_l_avg : average_shortest_path_length (cycle_graph 10) = inr (250 # 90).
Proof. vm_compute. reflexivity. Qed.

(** The sweep of the ring of 10 nodes on a fresh path, in the module as it
    is. *)
Lemma ring10_fresh_sweep (w : World) :
  fs w !! "../data/ring_10.pkl" = None →
  simulate_different_request_rates (module_globals engine) (cycle_graph 10)
    "../data/ring_10.pkl" "ring" w
  = (logged w [EvNetwork (cycle_graph 10) "ring";
               EvAvgShortestPath (cycle_graph 10)],
     inl (NameError "simulate_simgle_request_rate")).
Proof.
  intros Hfresh.
  rewrite (fresh_sweep_unfold _ _ _ _ w (250 # 90) Hfresh ring10_l_avg).
  destruct x_range as [|x xs] eqn:Hx.
  { pose proof x_range_length as Hl. rewrite Hx in Hl. discriminate. }
  erewrite bind_raise by apply sweep_loop_raises. reflexivity.
Qed.

(** C9: the numbers of the claim are those of the code.  The average
    shortest path length of the ring of 10 nodes is 25/9, in binary64
    2.778 to three decimals; the first sweep value is the binary64 number
    0.1, and its rate for that length is 0.018 to six decimals.  But the
    sweep of the ring on a fresh path, the first experiment of the script,
    ends in the [NameError] of its first turn, and the script with it: no
    request stream is generated at that rate and the engine is not
    invoked. *)
Theorem ring10_sweep_never_reaches_the_engine (w : World) :
  fs w !! "../data/ring_10.pkl" = None →
  average_shortest_path_length (cycle_graph 10) = inr (250 # 90)
  ∧ (250 # 90 == 25 # 9)%Q
  ∧ (Qabs (b64 (250 # 90) - (2778 # 1000)) < 1 # 1000)%Q
  ∧ x_range !! 0%nat = Some (b64 (1 # 10))
  ∧ (Qabs (normalize b64 (b64 (1 # 10)) (b64 (250 # 90)) - (18 # 1000))
       < 1 # 1000000)%Q
  ∧ simulate_different_request_rates (module_globals engine) (cycle_graph 10)
      "../data/ring_10.pkl" "ring" w
    = (logged w [EvNetwork (cycle_graph 10) "ring";
                 EvAvgShortestPath (cycle_graph 10)],
       inl (NameError "simulate_simgle_request_rate"))
  ∧ main (module_globals engine) w
    = (logged w [EvPrint "doing ring10"; EvNetwork (cycle_graph 10) "ring";
                 EvAvgShortestPath (cycle_graph 10)],
       inl (NameError "simulate_simgle_request_rate")).
Proof.
  intros Hfresh.
  split; [exact ring10_l_avg|]. split; [reflexivity|].
  split; [vm_compute; reflexivity|]. split; [vm_compute; reflexivity|].
  split; [vm_compute; reflexivity|].
  split; [exact (ring10_fresh_sweep w Hfresh)|].
  unfold main, experiments.
  change (run_blocks (?b :: ?bs)) with (b ≫= λ _, run_blocks bs).
  apply bind_raise. unfold experiment.
  erewrite bind_value by apply log_spec.
  erewrite bind_value by reflexivity.
  erewrite bind_raise; last first.
  { rewrite (ring10_fresh_sweep (logged w [EvPrint "doing ring10"]) Hfresh).
    rewrite logged_logged. reflexivity. }
  reflexivity.
Qed.

(** *** The sweep with the name of the callee repaired *)

Lemma dict_update_fresh {V : Type} (k : Q) (f : option V → V) (d : list (Q * V)) :
  Forall (λ k', Qeq_bool k' k = false) (dict_keys d) →
  dict_update k f d = d ++ [(k, f None)].
Proof.
  induction d as [|[k' v] d IH]; intros Hd; [reflexivity|].
  apply Forall_cons in Hd as [Hk Hd]. simpl in Hk |- *.
  rewrite Hk, IH by exact Hd. reflexivity.
Qed.

Lemma dict_update_last {V : Type} (k : Q) (f : option V → V) (d : list (Q * V))
    (v : V) :
  Forall (λ k', Qeq_bool k' k = false) (dict_keys d) →
  dict_update k f (d ++ [(k, v)]) = d ++ [(k, f (Some v))].
Proof.
  induction d as [|[k' v'] d IH]; intros Hd.
  - simpl. rewrite (proj2 (Qeq_bool_iff k k)) by reflexivity. reflexivity.
  - apply Forall_cons in Hd as [Hk Hd]. simpl in Hk |- *.
    rewrite Hk, IH by exact Hd. reflexivity.
Qed.

Lemma distinct_keys_app_cons (l1 : list Q) (x : Q) (l2 : list Q) :
  distinct_keys (l1 ++ x :: l2) = true →
  Forall (λ k', Qeq_bool k' x = false) l1.
Proof.
  induction l1 as [|y l1 IH]; intros Hd; [constructor|].
  simpl in Hd. apply andb_true_iff in Hd as [Hy Hd].
  constructor; [|apply IH, Hd].
  rewrite forallb_forall in Hy.
  specialize (Hy x). apply negb_true_iff, Hy.
  apply in_or_app. right. left. reflexivity.
Qed.

Lemma distinct_keys_prefix (l1 l2 : list Q) :
  distinct_keys (l1 ++ l2) = true → distinct_keys l1 = true.
Proof.
  induction l1 as [|y l1 IH]; intros Hd; [reflexivity|].
  simpl in Hd |- *. apply andb_true_iff in Hd as [Hy Hd].
  apply andb_true_iff. split; [|apply IH, Hd].
  rewrite forallb_app in Hy. apply andb_true_iff in Hy as [Hy _]. exact Hy.
Qed.

Lemma x_range_distinct : distinct_keys x_range = true.
Proof. vm_compute. reflexivity. Qed.

Lemma repaired_name_bound :
  repaired_globals engine !! "simulate_simgle_request_rate"
  = Some (PyFunction (simulate_single_request_rate engine)).
Proof. apply lookup_insert_eq. Qed.

(** The dump to a path that can be written. *)
Lemma pickle_dump_spec (path : string) (s : Store) (w : World) :
  write_error w path = None →
  ∃ w', pickle_dump path s w = (w', inr ())
        ∧ fs w' = <[path := FStore s]> (fs w)
        ∧ trace w' = trace w ++ [EvDump path]
        ∧ round w' = round w ∧ write_error w' = write_error w.
Proof.
  intros Hw. unfold pickle_dump. rewrite Hw. eexists. split; [reflexivity|].
  repeat split.
Qed.

(** One turn of the repaired loop at a value that is not yet a key, when
    the pickle path can be written: one simulation at that value, a new
    last entry with both data, and a dump of the whole store. *)
Lemma repaired_sweep_step (G : Graph) (nG : Network) (network_type : string)
    (l_avg : Q) (pickle_path : string) (result : Store) (x : Q) (w : World) :
  (2 ≤ length (nodes G))%nat → (0 < normalize (round w) x l_avg)%Q →
  write_error w pickle_path = None →
  Forall (λ k', Qeq_bool k' x = false) (dict_keys result) →
  ∃ (run : Q * node * list Request) (w' : World),
    run.1.1 = normalize (round w) x l_avg
    ∧ run.1.2 ∈ nodes G ∧ Z.of_nat (length run.2) = 10000
    ∧ sweep_step (repaired_globals engine) G nG network_type l_avg pickle_path
        result x w
      = (w', inr (result ++
                  [(x, full_entry (engine nG run.2 network_type run.1.2))]))
    ∧ trace w' = trace w ++ turn_events G nG network_type pickle_path x run
    ∧ fs w' = <[pickle_path :=
                  FStore (result ++
                          [(x, full_entry (engine nG run.2 network_type run.1.2))])]>
              (fs w)
    ∧ round w' = round w ∧ write_error w' = write_error w.
Proof.
  intros Hn Hr Hw Hfresh.
  destruct (single_rate_spec G nG x network_type l_avg w Hn Hr)
    as (start & reqs & a & Hin & Hlen & _ & _ & _ & Hsim).
  set (s := result ++ [(x, full_entry (engine nG reqs network_type start))]).
  match type of Hsim with _ = (?ww, _) => set (w1 := ww) in * end.
  destruct (pickle_dump_spec pickle_path s w1 Hw)
    as (w' & Hdump & Hfs & Htrace & Hround & Hwe).
  exists (normalize (round w) x l_avg, start, reqs), w'.
  split; [reflexivity|].
  split; [eapply list_elem_of_lookup_2; exact Hin|]. split; [exact Hlen|].
  assert (set_insertion_data x (engine nG reqs network_type start).2
            (set_req_data x (engine nG reqs network_type start).1 result) = s)
    as Hs.
  { unfold set_req_data, set_insertion_data.
    rewrite (dict_update_fresh x _ result) by exact Hfresh.
    rewrite dict_update_last by exact Hfresh. reflexivity. }
  split; [|split; [|split; [|split]]].
  - unfold sweep_step. erewrite bind_value; last first.
    { unfold call_global. rewrite repaired_name_bound. exact Hsim. }
    cbv beta zeta. rewrite Hs.
    erewrite bind_value by exact Hdump. reflexivity.
  - rewrite Htrace. unfold w1, turn_events. cbn [trace logged drawn fst snd].
    rewrite <- app_assoc. reflexivity.
  - rewrite Hfs. reflexivity.
  - rewrite Hround. reflexivity.
  - rewrite Hwe. reflexivity.
Qed.

(** The repaired loop over sweep values that are distinct from each other
    and from the keys of the store: one turn per value in order, the store
    grows by one entry per value and keeps the entries it had, and after
    every turn the file holds the whole store. *)
Lemma repaired_sweep_loop (G : Graph) (nG : Network) (network_type : string)
    (l_avg : Q) (pickle_path : string) :
  (2 ≤ length (nodes G))%nat →
  ∀ (xs : list Q) (result : Store) (w : World),
    (∀ x, x ∈ xs → (0 < normalize (round w) x l_avg)%Q) →
    write_error w pickle_path = None →
    distinct_keys (dict_keys result ++ xs) = true →
    ∃ (new : Store) (runs : list (Q * node * list Request)) (w' : World),
      sweep_loop (repaired_globals engine) G nG network_type l_avg pickle_path
                 xs result w
      = (w', inr (result ++ new))
      ∧ dict_keys new = xs
      ∧ new.*2 = (λ run : Q * node * list Request,
                    full_entry (engine nG run.2 network_type run.1.2)) <$> runs
      ∧ Forall2 (λ x (run : Q * node * list Request),
                   run.1.1 = normalize (round w) x l_avg
                   ∧ run.1.2 ∈ nodes G ∧ Z.of_nat (length run.2) = 10000)
                xs runs
      ∧ trace w' = trace w ++
          concat (zip_with (turn_events G nG network_type pickle_path) xs runs)
      ∧ fs w' = match xs with
                | [] => fs w
                | _ => <[pickle_path := FStore (result ++ new)]> (fs w)
                end.
Proof.
  intros Hn xs. induction xs as [|x xs IH]; intros result w Hpos Hw Hdist.
  - exists [], [], w. rewrite !app_nil_r. repeat split; constructor.
  - destruct (repaired_sweep_step G nG network_type l_avg pickle_path result x w
                Hn (Hpos x ltac:(left)) Hw (distinct_keys_app_cons _ _ _ Hdist))
      as (run & w1 & Hrate & Hin & Hlen & Hstep & Htrace & Hfs & Hround & Hwe).
    set (e := full_entry (engine nG run.2 network_type run.1.2)) in *.
    destruct (IH (result ++ [(x, e)]) w1) as
      (new & runs & w' & Hloop & Hkeys & Hdata & Hruns & Htrace' & Hfs').
    { intros y Hy. rewrite Hround. apply Hpos. right. exact Hy. }
    { rewrite Hwe. exact Hw. }
    { unfold dict_keys. rewrite fmap_app. simpl. rewrite <- app_assoc. exact Hdist. }
    exists ((x, e) :: new), (run :: runs), w'.
    split; [|split; [|split; [|split; [|split]]]].
    + simpl sweep_loop. erewrite bind_value by exact Hstep.
      rewrite Hloop, <- app_assoc. reflexivity.
    + unfold dict_keys in *. rewrite fmap_cons, Hkeys. reflexivity.
    + rewrite !fmap_cons, Hdata. reflexivity.
    + constructor; [repeat split; assumption|].
      rewrite Hround in Hruns. exact Hruns.
    + rewrite Htrace', Htrace. simpl. rewrite <- app_assoc. reflexivity.
    + rewrite Hfs'. destruct xs as [|x' xs].
      * destruct new; [|discriminate]. rewrite Hfs. reflexivity.
      * rewrite Hfs, insert_insert_eq, <- app_assoc. reflexivity.
Qed.

(** The sweep of the repaired module on a fresh path that can be written,
    for a graph of at least two nodes on which every sweep value has a
    positive rate: the 100 sweep values are simulated once each in their
    order, the file holds an entry with both data for each of them in that
    order, and the function returns [None]. *)
Lemma repaired_sweep_completes (G : Graph) (pickle_path network_type : string)
    (l : Q) (w : World) :
  fs w !! pickle_path = None → write_error w pickle_path = None →
  (2 ≤ length (nodes G))%nat →
  average_shortest_path_length G = inr l →
  (∀ x, x ∈ x_range → (0 < normalize (round w) x (fround (round w) l))%Q) →
  ∃ (s : Store) (runs : list (Q * node * list Request)) (w' : World),
    simulate_different_request_rates (repaired_globals engine) G pickle_path
                                     network_type w
    = (w', inr None)
    ∧ dict_keys s = x_range
    ∧ s.*2 = (λ run : Q * node * list Request,
                full_entry (engine (mkNetwork G network_type) run.2
                                   network_type run.1.2)) <$> runs
    ∧ Forall2 (λ x (run : Q * node * list Request),
                 run.1.1 = normalize (round w) x (fround (round w) l)
                 ∧ run.1.2 ∈ nodes G ∧ Z.of_nat (length run.2) = 10000)
              x_range runs
    ∧ fs w' = <[pickle_path := FStore s]> (fs w)
    ∧ trace w' = trace w ++
        [EvNetwork G network_type; EvAvgShortestPath G] ++
        concat (zip_with (turn_events G (mkNetwork G network_type) network_type
                                      pickle_path)
                         x_range runs).
Proof.
  intros Hfresh Hw Hn Havg Hpos.
  destruct (repaired_sweep_loop G (mkNetwork G network_type) network_type
              (fround (round w) l) pickle_path Hn x_range []
              (logged w [EvNetwork G network_type; EvAvgShortestPath G]))
    as (s & runs & w' & Hloop & Hkeys & Hdata & Hruns & Htrace & Hfs).
  { exact Hpos. }
  { exact Hw. }
  { exact x_range_distinct. }
  exists s, runs, w'.
  rewrite (fresh_sweep_unfold _ G pickle_path network_type w l Hfresh Havg).
  erewrite bind_value by exact Hloop.
  split; [reflexivity|]. split; [exact Hkeys|]. split; [exact Hdata|].
  split; [exact Hruns|]. split.
  - rewrite Hfs. destruct x_range eqn:Hx; [|reflexivity].
    pose proof x_range_length as Hlen. rewrite Hx in Hlen. discriminate.
  - rewrite Htrace. cbn [trace logged]. rewrite <- app_assoc. reflexivity.
Qed.


(** With the name of the callee repaired and a path that can be written,
    after the first [i] sweep values the file holds exactly [i] entries,
    whose keys are those values in their order. *)
Lemma repaired_checkpoint_growth (G : Graph) (nG : Network)
    (network_type : string) (l_avg : Q) (pickle_path : string) (i : nat)
    (w : World) :
  (2 ≤ length (nodes G))%nat → write_error w pickle_path = None →
  (∀ x, x ∈ x_range → (0 < normalize (round w) x l_avg)%Q) → (1 ≤ i)%nat →
  ∃ (s : Store) (w' : World),
    sweep_loop (repaired_globals engine) G nG network_type l_avg pickle_path
               (take i x_range) [] w
    = (w', inr s)
    ∧ dict_keys s = take i x_range
    ∧ fs w' !! pickle_path = Some (FStore s).
Proof.
  intros Hn Hw Hpos Hi.
  destruct (repaired_sweep_loop G nG network_type l_avg pickle_path Hn
              (take i x_range) [] w)
    as (s & runs & w' & Hloop & Hkeys & _ & _ & _ & Hfs).
  { intros x Hx. apply Hpos.
    apply list_elem_of_lookup_1 in Hx as [j Hj].
    apply lookup_take_Some in Hj as [Hj _].
    eapply list_elem_of_lookup_2, Hj. }
  { exact Hw. }
  { apply (distinct_keys_prefix _ (drop i x_range)).
    simpl. rewrite take_drop. exact x_range_distinct. }
  exists s, w'. split; [exact Hloop|]. split; [exact Hkeys|].
  rewrite Hfs. destruct (take i x_range) as [|x xs] eqn:Ht.
  - apply (f_equal length) in Ht. rewrite length_take, x_range_length in Ht.
    simpl in Ht. lia.
  - apply lookup_insert_eq.
Qed.



(** *** Further properties of the request generator *)

Lemma only_draws_refl (w : World) : only_draws w w.
Proof. exists 0%nat, 0%nat. symmetry. apply drawn_0. Qed.

Lemma only_draws_trans (w1 w2 w3 : World) :
  only_draws w1 w2 → only_draws w2 w3 → only_draws w1 w3.
Proof.
  intros (a & b & ->) (c & d & ->). exists (a + c)%nat, (b + d)%nat.
  apply drawn_drawn.
Qed.

Lemma only_draws_drawn (w : World) (a b : nat) : only_draws w (drawn w a b).
Proof. exists a, b. reflexivity. Qed.

(** X1: the stream is finite.  Once [num_reqs] requests have been yielded
    the generator is exhausted, so a consumer that asks for any number of
    further requests gets the same stream and leaves the same world. *)
Theorem stream_end_is_stable (G : Graph) (num_reqs : Z) (req_rate : Q) (k : nat)
    (w : World) :
  drain (S (Z.to_nat num_reqs) + k) G num_reqs req_rate (mkGenState 0 0) w
  = req_generator_uniform G num_reqs req_rate w.
Proof.
  unfold req_generator_uniform. induction k as [|k IH].
  - rewrite Nat.add_0_r. reflexivity.
  - rewrite Nat.add_succ_r, drain_fuel_enough; [exact IH|]. simpl. lia.
Qed.

(** X2: for a count of zero or less the stream is empty on every graph, the
    empty one included, and at every rate, and nothing is drawn from either
    random source. *)
Theorem nonpositive_count_gives_empty_stream (G : Graph) (num_reqs : Z)
    (req_rate : Q) (w : World) :
  num_reqs ≤ 0 →
  req_generator_uniform G num_reqs req_rate w = (w, inr []).
Proof.
  intros Hn. unfold req_generator_uniform. rewrite Z2Nat.nonpos by exact Hn.
  simpl drain. unfold gen_next. rewrite decide_False by (simpl; lia).
  reflexivity.
Qed.

Lemma stream_on_small_graph (G : Graph) (num_reqs : Z) (req_rate : Q)
    (w : World) :
  (length (nodes G) < 2)%nat → 1 ≤ num_reqs →
  req_generator_uniform G num_reqs req_rate w
  = (w, inl (ValueError "Sample larger than population or is negative")).
Proof.
  intros Hn Hcount. unfold req_generator_uniform. simpl drain.
  apply bind_raise. unfold gen_next. rewrite decide_True by (simpl; lia).
  apply bind_raise. unfold random_sample. rewrite decide_False by lia.
  reflexivity.
Qed.

(** X3: on a graph of fewer than two nodes a stream of at least one request
    raises the [ValueError] of [random.sample] at its first resumption,
    before anything is drawn. *)
Theorem small_graph_stream_raises (G : Graph) (num_reqs : Z) (req_rate : Q)
    (w : World) :
  (length (nodes G) < 2)%nat → 1 ≤ num_reqs →
  req_generator_uniform G num_reqs req_rate w
  = (w, inl (ValueError "Sample larger than population or is negative")).
Proof. apply stream_on_small_graph. Qed.

(** X4: at a rate whose inverse is a negative floating-point number, a
    stream of at least one request on a graph of at least two nodes raises
    the [ValueError] of [np.random.exponential] at its first resumption,
    after the draws of the pair of nodes: at least two of them, exactly
    two on a graph of at most 21 nodes. *)
Theorem negative_rate_stream_raises (G : Graph) (num_reqs : Z) (req_rate : Q)
    (w : World) :
  (2 ≤ length (nodes G))%nat → 1 ≤ num_reqs →
  (fround (round w) (1 / req_rate) < 0)%Q →
  ∃ a : nat,
    (2 ≤ a)%nat ∧ ((length (nodes G) ≤ setsize)%nat → a = 2%nat)
    ∧ req_generator_uniform G num_reqs req_rate w
      = (drawn w a 0, inl (ValueError "scale < 0")).
Proof.
  intros Hn Hcount Hr.
  assert (¬ (req_rate == 0)%Q) as Hnz.
  { intros H0.
    assert (1 / req_rate == 0)%Q as Hq.
    { unfold Qdiv. rewrite H0. reflexivity. }
    unfold fround in Hr. apply Qeq_alt in Hq. rewrite Hq in Hr. discriminate. }
  destruct (random_sample_two G w Hn)
    as (a & orig & dest & Hs & Ha & Hsmall & _).
  exists a. split; [exact Ha|]. split; [exact Hsmall|].
  unfold req_generator_uniform. simpl drain.
  apply bind_raise. unfold gen_next. rewrite decide_True by (simpl; lia).
  erewrite bind_value by exact Hs. cbv beta iota.
  erewrite bind_value by (apply fdiv_spec, Hnz).
  apply bind_raise. unfold np_exponential.
  change (round (drawn w a 0)) with (round w).
  destruct (Qlt_le_dec (fround (round w) (1 / req_rate)) 0) as [_|Hge];
    [reflexivity|].
  exfalso. apply (Qlt_irrefl 0). eapply Qle_lt_trans; eassumption.
Qed.

(** X5: a stream consumed on a graph of at least two nodes at a positive
    rate takes one draw of [numpy.random] and at least two draws of
    [random] per request, exactly two on a graph of at most 21 nodes, and
    leaves the files and the trace as they were. *)
Theorem stream_draws_are_counted (G : Graph) (num_reqs : Z) (req_rate : Q)
    (w : World) :
  (2 ≤ length (nodes G))%nat → (0 < req_rate)%Q →
  ∃ (a : nat) (reqs : list Request),
    req_generator_uniform G num_reqs req_rate w
    = (drawn w a (Z.to_nat num_reqs), inr reqs)
    ∧ (2 * Z.to_nat num_reqs ≤ a)%nat
    ∧ ((length (nodes G) ≤ setsize)%nat → a = (2 * Z.to_nat num_reqs)%nat)
    ∧ length reqs = Z.to_nat num_reqs.
Proof.
  intros Hn Hr.
  apply (drain_spec G num_reqs req_rate Hn Hr (Z.to_nat num_reqs)
           (S (Z.to_nat num_reqs)) (mkGenState 0 0) w).
  - simpl. f_equal. lia.
  - lia.
Qed.

(** X6: the generator performs no input or output on any path: whether the
    stream ends or raises, the world after it is the world before it with
    some draws taken from the two random sources. *)
Theorem stream_only_draws (G : Graph) (num_reqs : Z) (req_rate : Q) (w : World) :
  ∃ a b : nat, (req_generator_uniform G num_reqs req_rate w).1 = drawn w a b.
Proof.
  apply (keeps_req_generator_uniform only_draws only_draws_refl
           only_draws_trans only_draws_drawn).
Qed.

(** *** Further properties of one request rate and of the sweep *)

(** X7: one request rate on a graph of at least two nodes at a positive
    rate.  The start node is drawn first, with the first draw of [random],
    at the position of that draw among the nodes in the order of their
    insertion; then the engine is built, the message is printed and the
    10000 requests are consumed, which takes one draw of [numpy.random] and
    at least two more of [random] per request, exactly two on a graph of
    at most 21 nodes; the value is the data of the engine for these
    requests and that start node, and no file is touched. *)
Theorem single_rate_run (G : Graph) (nG : Network) (x : Q)
    (network_type : string) (l_avg : Q) (w : World) :
  (2 ≤ length (nodes G))%nat → (0 < normalize (round w) x l_avg)%Q →
  ∃ (start : node) (reqs : list Request) (a : nat),
    nodes G !! draw_at (length (nodes G)) w 0 = Some start
    ∧ Z.of_nat (length reqs) = 10000
    ∧ (2 * Z.to_nat 10000 ≤ a)%nat
    ∧ ((length (nodes G) ≤ setsize)%nat → a = (2 * Z.to_nat 10000)%nat)
    ∧ simulate_single_request_rate engine G nG x network_type l_avg w
      = (logged (drawn w (1 + a) (Z.to_nat 10000))
           [EvZeroDetourBus nG G 10000 (normalize (round w) x l_avg)
              network_type start;
            EvPrintSimulating x; EvSimulateAll reqs],
         inr (engine nG reqs network_type start)).
Proof.
  intros Hn Hr.
  destruct (single_rate_spec G nG x network_type l_avg w Hn Hr)
    as (start & reqs & a & Hstart & Hlen & Ha & Hsmall & _ & Hsim).
  exists start, reqs, a. auto.
Qed.

(** X8: one request rate for an [l_avg] that is not zero.  On a graph
    without nodes it raises the [ValueError] of [random.sample] at the draw
    of the start node, before any action; on a graph of a single node it
    draws that node, builds the engine and prints its message, and raises
    the [ValueError] of [random.sample] only when the stream is
    consumed. *)
Theorem single_rate_on_small_graphs (G : Graph) (nG : Network) (x : Q)
    (network_type : string) (l_avg : Q) (w : World) :
  ¬ (l_avg == 0)%Q →
  (nodes G = [] →
   simulate_single_request_rate engine G nG x network_type l_avg w
   = (w, inl (ValueError "Sample larger than population or is negative")))
  ∧ (∀ v, nodes G = [v] →
     simulate_single_request_rate engine G nG x network_type l_avg w
     = (logged (drawn w 1 0)
          [EvZeroDetourBus nG G 10000 (normalize (round w) x l_avg)
             network_type v;
           EvPrintSimulating x],
        inl (ValueError "Sample larger than population or is negative"))).
Proof.
  intros Hl.
  pose proof (rate_spec x l_avg w Hl) as Hrate.
  assert (∀ k : Q → M (req_data * insertion_data),
            (half ← fdiv x 2; req_rate ← fdiv half l_avg; k req_rate) w
            = k (normalize (round w) x l_avg) w) as Hstart.
  { intros k. unfold mbind, M_bind in Hrate |- *.
    destruct (fdiv x 2 w) as [w0 [e|half]]; [discriminate|].
    rewrite Hrate. reflexivity. }
  split.
  - intros Hnodes. unfold simulate_single_request_rate. cbv zeta.
    rewrite Hstart. apply bind_raise.
    unfold random_sample. rewrite Hnodes, decide_False by (simpl; lia).
    reflexivity.
  - intros v Hnodes. unfold simulate_single_request_rate. cbv zeta.
    rewrite Hstart.
    destruct (random_sample_one_eq (nodes G) w) as (start & Hst & Hs).
    { rewrite Hnodes. simpl. lia. }
    assert (start = v) as ->.
    { rewrite Hnodes in Hst. unfold draw_at in Hst.
      change (length [v]) with 1%nat in Hst.
      rewrite Nat.mod_1_r in Hst. simpl in Hst. congruence. }
    erewrite bind_value by exact Hs. cbv beta iota zeta.
    erewrite bind_value by apply log_spec.
    erewrite bind_value by apply log_spec.
    rewrite logged_logged. simpl app.
    erewrite bind_raise; [reflexivity|].
    apply stream_on_small_graph; [rewrite Hnodes; simpl|]; lia.
Qed.

(** X9: when the average shortest path length of the graph is undefined
    (no node, or a graph that is not connected), a sweep on a fresh path
    raises the exception of networkx right after wrapping the graph: the
    loop is not entered, whatever its callee, and no file is written. *)
Theorem undefined_l_avg_ends_sweep (genv : gmap string pyobj) (G : Graph)
    (pickle_path network_type : string) (w : World) (e : exn) :
  fs w !! pickle_path = None →
  average_shortest_path_length G = inl e →
  simulate_different_request_rates genv G pickle_path network_type w
  = (logged w [EvNetwork G network_type; EvAvgShortestPath G], inl e).
Proof.
  intros Hfresh Havg. unfold simulate_different_request_rates.
  erewrite bind_value by (apply path_exists_absent, Hfresh).
  cbv beta iota.
  erewrite bind_value by apply log_spec.
  erewrite bind_value by apply log_spec.
  rewrite logged_logged. simpl app. rewrite Havg.
  erewrite bind_raise; reflexivity.
Qed.

Lemma other_files_refl (path : string) (w : World) : other_files path w w.
Proof. intros p _. reflexivity. Qed.

Lemma other_files_trans (path : string) (w1 w2 w3 : World) :
  other_files path w1 w2 → other_files path w2 w3 → other_files path w1 w3.
Proof. intros H12 H23 p Hp. rewrite H23, H12 by exact Hp. reflexivity. Qed.

Lemma other_files_drawn (path : string) (w : World) (a b : nat) :
  other_files path w (drawn w a b).
Proof. intros p _. reflexivity. Qed.

(** X10: a sweep writes no file but its own pickle.  In the module as it is
    and in the module with the name of the callee repaired, on every path
    (skip, exception or full run), every other file is after the sweep as
    it was before. *)
Theorem sweep_touches_only_its_pickle (genv : gmap string pyobj) (G : Graph)
    (pickle_path network_type : string) (w : World) (p : string) :
  genv = module_globals engine ∨ genv = repaired_globals engine →
  p ≠ pickle_path →
  fs (simulate_different_request_rates genv G pickle_path network_type w).1 !! p
  = fs w !! p.
Proof.
  intros Hgenv Hp. revert p Hp.
  change (other_files pickle_path w
            (simulate_different_request_rates genv G pickle_path network_type w).1).
  revert w.
  change (keeps (other_files pickle_path)
            (simulate_different_request_rates genv G pickle_path network_type)).
  pose proof (other_files_refl pickle_path) as Hrefl.
  pose proof (other_files_trans pickle_path) as Htrans.
  pose proof (other_files_drawn pickle_path) as Hdrawn.
  assert (∀ e, keeps (other_files pickle_path) (log e : M unit)) as Hlog.
  { intros e w p _. reflexivity. }
  unfold simulate_different_request_rates.
  apply (keeps_bind _ Htrans); [intros w; apply Hrefl|].
  intros [|].
  { apply (keeps_bind _ Htrans); [apply Hlog | intros; apply (keeps_ret _ Hrefl)]. }
  apply (keeps_bind _ Htrans); [apply Hlog | intros _].
  apply (keeps_bind _ Htrans); [apply Hlog | intros _].
  apply (keeps_bind _ Htrans); [apply (keeps_lift_exn _ Hrefl) | intros l].
  apply (keeps_bind _ Htrans); [apply (keeps_fl _ Hrefl) | intros l_avg].
  apply (keeps_bind _ Htrans); [|intros; apply (keeps_ret _ Hrefl)].
  apply (keeps_sweep_loop _ Hrefl Htrans).
  - intros f x Hlook _.
    assert (f = simulate_single_request_rate engine) as ->.
    { destruct Hgenv as [-> | ->].
      - rewrite misspelt_name_unbound in Hlook. discriminate.
      - rewrite repaired_name_bound in Hlook. congruence. }
    apply (keeps_simulate_single_request_rate _ Hrefl Htrans Hdrawn);
      intros; apply Hlog.
  - intros s w p Hp. unfold pickle_dump.
    destruct (write_error w pickle_path); [reflexivity|].
    simpl. apply lookup_insert_ne. congruence.
Qed.

(** X11: an experiment on a street network whose graph file is missing
    raises [FileNotFoundError] right after its announcement: the graph is
    loaded before the sweep looks for its pickle, so a pickle that exists
    does not save the experiment, and nothing is simulated or written. *)
Theorem missing_graph_file_ends_experiment (genv : gmap string pyobj)
    (doing name pickle_path network_type done_ : string) (w : World) :
  fs w !! street_graph_path name = None →
  experiment genv doing (street_network name) pickle_path network_type done_ w
  = (logged w [EvPrint doing], inl (FileNotFoundError (street_graph_path name))).
Proof.
  intros Hmissing. unfold experiment.
  erewrite bind_value by apply log_spec.
  apply bind_raise. unfold street_network, read_gpickle.
  apply bind_raise. unfold read_file.
  change (fs (logged w [EvPrint doing])) with (fs w).
  fold (street_graph_path name). rewrite Hmissing. reflexivity.
Qed.

(** *** The checkpoints of the loop *)





(** X19: a pickle path that cannot be opened for writing.  When the callee
    returns at the first sweep value and [open] raises on the pickle path
    (its directory is missing, say), the sweep on that path raises the
    exception of [open] in its first turn, after the simulation of that
    value: no file is written, and the data of the simulation are lost. *)
Theorem unwritable_path_ends_sweep (genv : gmap string pyobj)
    (f : Graph → Network → Q → string → Q → M (req_data * insertion_data))
    (G : Graph) (pickle_path network_type : string) (l : Q) (w w1 : World)
    (x : Q) (xs : list Q) (rd : req_data * insertion_data) (e : exn) :
  fs w !! pickle_path = None →
  average_shortest_path_length G = inr l →
  x_range = x :: xs →
  genv !! "simulate_simgle_request_rate" = Some (PyFunction f) →
  f G (mkNetwork G network_type) x network_type (fround (round w) l)
    (logged w [EvNetwork G network_type; EvAvgShortestPath G])
  = (w1, inr rd) →
  write_error w1 pickle_path = Some e →
  simulate_different_request_rates genv G pickle_path network_type w
  = (w1, inl e).
Proof.
  intros Hfresh Havg Hx Hbound Hcall Hwe.
  rewrite (fresh_sweep_unfold genv G pickle_path network_type w l Hfresh Havg).
  apply bind_raise. rewrite Hx. simpl sweep_loop.
  apply bind_raise. unfold sweep_step.
  erewrite bind_value; last first.
  { unfold call_global. rewrite Hbound. exact Hcall. }
  cbv beta zeta. apply bind_raise. unfold pickle_dump. rewrite Hwe.
  reflexivity.
Qed.

(** *** A run of the script over complete data *)

Lemma run_blocks_prints (w : World) (bs : list (M unit)) :
  ∀ (ms : list (list event)) (es : list event),
    Forall2 (λ b m, prints b m w) bs ms →
    run_blocks bs (logged w es) = (logged w (es ++ concat ms), inr ()).
Proof.
  induction bs as [|b bs IH]; intros ms es Hall.
  - apply Forall2_nil_inv_l in Hall as ->. simpl. rewrite app_nil_r. reflexivity.
  - apply Forall2_cons_inv_l in Hall as (m & ms' & Hb & Hall & ->).
    simpl run_blocks. erewrite bind_value by apply Hb.
    rewrite (IH ms' (es ++ m) Hall). simpl. rewrite app_assoc. reflexivity.
Qed.

(** A sweep whose pickle exists, after anything that has been printed. *)
Lemma skip_prints (genv : gmap string pyobj) (G : Graph)
    (pickle_path network_type : string) (w : World) (es : list event) :
  is_Some (fs w !! pickle_path) →
  simulate_different_request_rates genv G pickle_path network_type (logged w es)
  = (logged w (es ++ [EvPrint "pickle exists, doing nothing"]), inr None).
Proof.
  intros Hex. rewrite skip_spec by exact Hex. rewrite logged_logged. reflexivity.
Qed.

Lemma experiment_prints (genv : gmap string pyobj) (doing : string)
    (topology : M Graph) (G : Graph) (pickle_path network_type done_ : string)
    (w : World) :
  (∀ es, topology (logged w es) = (logged w es, inr G)) →
  is_Some (fs w !! pickle_path) →
  prints (experiment genv doing topology pickle_path network_type done_)
         [EvPrint doing; EvPrint "pickle exists, doing nothing"; EvPrint done_] w.
Proof.
  intros Htop Hex es. unfold experiment.
  erewrite bind_value by apply log_spec. rewrite logged_logged.
  erewrite bind_value by apply Htop.
  erewrite bind_value by (apply skip_prints, Hex).
  rewrite log_spec, logged_logged, <- !app_assoc. reflexivity.
Qed.

Lemma street_network_loads (name : string) (G : Graph) (w : World) :
  fs w !! street_graph_path name = Some (FGraph G) →
  ∀ es, street_network name (logged w es) = (logged w es, inr G).
Proof.
  intros Hfile es. unfold street_network, read_gpickle.
  erewrite bind_value; last first.
  { unfold read_file. change (fs (logged w es)) with (fs w).
    fold (street_graph_path name). rewrite Hfile. reflexivity. }
  reflexivity.
Qed.

Lemma berlin_coarse_prints (genv : gmap string pyobj)
    (all_Gs : gmap Z (gmap Z Graph)) (c t : Z) (G : Graph) (w : World) :
  all_Gs !! c ≫= (.!! t) = Some G →
  is_Some (fs w !! ("../data/street_berlin_homogenized_coarse_graining_meters_"
                    +:+ pretty c +:+ "_target_edge_length_" +:+ pretty t
                    +:+ ".pkl")) →
  prints (berlin_coarse genv all_Gs c t)
         [EvPrint ("Doing Berlin " +:+ pretty c +:+ " " +:+ pretty t);
          EvPrint "pickle exists, doing nothing"] w.
Proof.
  intros HG Hex es. unfold berlin_coarse.
  erewrite bind_value by apply log_spec. rewrite logged_logged, HG.
  erewrite bind_value by (apply skip_prints, Hex).
  rewrite <- !app_assoc. reflexivity.
Qed.

(** X14: a run of the script over complete data changes nothing.  When the
    twelve pickles exist, the three street-network files hold graphs and
    the file of the coarse-grained Berlin networks holds the three graphs
    that the script asks for, the script skips every sweep: it returns
    after printing its messages, with the files and the random sources as
    they were and nothing simulated, whatever its global names are bound
    to. *)
Theorem rerun_over_complete_data (genv : gmap string pyobj) (w : World)
    (all_Gs : gmap Z (gmap Z Graph)) :
  Forall (λ p, is_Some (fs w !! p)) sweep_paths →
  Forall (λ name, ∃ G, fs w !! street_graph_path name = Some (FGraph G))
         ["goe"; "harz"; "berlin"] →
  fs w !! all_berlin_path = Some (FAllGs all_Gs) →
  Forall (λ t, is_Some (all_Gs !! 200 ≫= (.!! t))) [400; 600; 800] →
  main genv w = (logged w rerun_messages, inr ()).
Proof.
  intros Hp Hg Hb Hk.
  do 9 (apply Forall_cons in Hp as [? Hp]).
  apply Forall_cons in Hp as [Hp400 Hp].
  apply Forall_cons in Hp as [Hp600 Hp].
  apply Forall_cons in Hp as [Hp800 _].
  apply Forall_cons in Hg as [[Ggoe Hgoe] Hg].
  apply Forall_cons in Hg as [[Gharz Hharz] Hg].
  apply Forall_cons in Hg as [[Gberlin Hberlin] _].
  apply Forall_cons in Hk as [[G400 H400] Hk].
  apply Forall_cons in Hk as [[G600 H600] Hk].
  apply Forall_cons in Hk as [[G800 H800] _].
  assert (prints (many_berlins genv)
            [EvPrint "Doing Berlin 200 400"; EvPrint "pickle exists, doing nothing";
             EvPrint "Doing Berlin 200 600"; EvPrint "pickle exists, doing nothing";
             EvPrint "Doing Berlin 200 800"; EvPrint "pickle exists, doing nothing"]
            w) as Hmany.
  { intros es. unfold many_berlins.
    erewrite bind_value; last first.
    { unfold load_all_Gs. erewrite bind_value; last first.
      { unfold read_file. change (fs (logged w es)) with (fs w).
        fold all_berlin_path. rewrite Hb. reflexivity. }
      reflexivity. }
    apply (run_blocks_prints w _
             [[EvPrint "Doing Berlin 200 400"; EvPrint "pickle exists, doing nothing"];
              [EvPrint "Doing Berlin 200 600"; EvPrint "pickle exists, doing nothing"];
              [EvPrint "Doing Berlin 200 800"; EvPrint "pickle exists, doing nothing"]]
             es).
    simpl fmap.
    apply Forall2_cons; split;
      [exact (berlin_coarse_prints genv all_Gs 200 400 G400 w H400 Hp400)|].
    apply Forall2_cons; split;
      [exact (berlin_coarse_prints genv all_Gs 200 600 G600 w H600 Hp600)|].
    apply Forall2_cons; split;
      [exact (berlin_coarse_prints genv all_Gs 200 800 G800 w H800 Hp800)|].
    apply Forall2_nil_2. }
  rewrite <- (logged_nil w) at 1. unfold main.
  apply (run_blocks_prints w (experiments genv)
           [[EvPrint "doing ring10"; EvPrint "pickle exists, doing nothing";
             EvPrint "done ring10"];
            [EvPrint "doing ring100"; EvPrint "pickle exists, doing nothing";
             EvPrint "done ring100"];
            [EvPrint "doing line100"; EvPrint "pickle exists, doing nothing";
             EvPrint "done line100"];
            [EvPrint "doing star100"; EvPrint "pickle exists, doing nothing";
             EvPrint "done star100"];
            [EvPrint "doing grid100"; EvPrint "pickle exists, doing nothing";
             EvPrint "done grid100"];
            [EvPrint "doing trigrid13"; EvPrint "pickle exists, doing nothing";
             EvPrint "done trigrid13"];
            [EvPrint "doing Gö"; EvPrint "pickle exists, doing nothing";
             EvPrint "done Gö"];
            [EvPrint "doing Harz"; EvPrint "pickle exists, doing nothing";
             EvPrint "done Harz"];
            [EvPrint "doing Berlin"; EvPrint "pickle exists, doing nothing";
             EvPrint "done Berlin"];
            [EvPrint "Doing Berlin 200 400"; EvPrint "pickle exists, doing nothing";
             EvPrint "Doing Berlin 200 600"; EvPrint "pickle exists, doing nothing";
             EvPrint "Doing Berlin 200 800"; EvPrint "pickle exists, doing nothing"]]
           []).
  unfold experiments.
  repeat (apply Forall2_cons; split;
          [eapply experiment_prints; [intros; reflexivity | assumption]|]).
  apply Forall2_cons; split;
    [apply (experiment_prints _ _ _ Ggoe);
     [apply street_network_loads; assumption | assumption]|].
  apply Forall2_cons; split;
    [apply (experiment_prints _ _ _ Gharz);
     [apply street_network_loads; assumption | assumption]|].
  apply Forall2_cons; split;
    [apply (experiment_prints _ _ _ Gberlin);
     [apply street_network_loads; assumption | assumption]|].
  apply Forall2_cons; split; [exact Hmany | apply Forall2_nil_2].
Qed.

(** X15: the coarse-grained Berlin networks.  When their file is missing
    the block raises [FileNotFoundError] before anything is printed; when
    the file lacks the graph for 200 and 400 the block raises [KeyError]
    right after the announcement of that network; in both cases no sweep
    of the block is started. *)
Theorem many_berlins_errors (genv : gmap string pyobj) (w : World) :
  (fs w !! all_berlin_path = None →
   many_berlins genv w = (w, inl (FileNotFoundError all_berlin_path)))
  ∧ (∀ all_Gs : gmap Z (gmap Z Graph),
       fs w !! all_berlin_path = Some (FAllGs all_Gs) →
       all_Gs !! 200 ≫= (.!! 400) = None →
       many_berlins genv w
       = (logged w [EvPrint "Doing Berlin 200 400"], inl KeyError)).
Proof.
  split.
  - intros Hmissing. unfold many_berlins. apply bind_raise.
    unfold load_all_Gs. apply bind_raise. unfold read_file.
    fold all_berlin_path. rewrite Hmissing. reflexivity.
  - intros all_Gs Hfile Hkey. unfold many_berlins.
    erewrite bind_value; last first.
    { unfold load_all_Gs. erewrite bind_value; last first.
      { unfold read_file. fold all_berlin_path. rewrite Hfile. reflexivity. }
      reflexivity. }
    simpl fmap. simpl run_blocks. apply bind_raise.
    unfold berlin_coarse. erewrite bind_value by apply log_spec.
    simpl fst. simpl snd. rewrite Hkey. reflexivity.
Qed.

(** *** The assignments of a turn and the sweep values *)

Lemma dict_get_update_eq {V : Type} (k : Q) (f : option V → V) (d : list (Q * V)) :
  dict_get k (dict_update k f d) = Some (f (dict_get k d)).
Proof.
  induction d as [|[k' v] d IH]; simpl.
  - rewrite (proj2 (Qeq_bool_iff k k)) by reflexivity. reflexivity.
  - destruct (Qeq_bool k' k) eqn:Hk; simpl; rewrite Hk; [reflexivity | exact IH].
Qed.

Lemma dict_get_update_ne {V : Type} (k y : Q) (f : option V → V)
    (d : list (Q * V)) :
  ¬ (k == y)%Q → dict_get y (dict_update k f d) = dict_get y d.
Proof.
  intros Hne. induction d as [|[k' v] d IH]; simpl.
  - destruct (Qeq_bool k y) eqn:Hk; [|reflexivity].
    apply Qeq_bool_iff in Hk. contradiction.
  - destruct (Qeq_bool k' k) eqn:Hk; simpl.
    + destruct (Qeq_bool k' y) eqn:Hy; [|reflexivity].
      apply Qeq_bool_iff in Hk, Hy. exfalso. apply Hne.
      rewrite <- Hk. exact Hy.
    + rewrite IH. reflexivity.
Qed.

Lemma dict_update_length {V : Type} (k : Q) (f : option V → V) (d : list (Q * V)) :
  length (dict_update k f d)
  = match dict_get k d with Some _ => length d | None => S (length d) end.
Proof.
  induction d as [|[k' v] d IH]; simpl; [reflexivity|].
  destruct (Qeq_bool k' k); simpl; [reflexivity|].
  rewrite IH. destruct (dict_get k d); reflexivity.
Qed.

(** X16: the two assignments of a turn, [result[x]['req_data'] = a] and
    [result[x]['insertion_data'] = b].  Afterwards [result[x]] holds both
    data, whether or not [x] was a key; the entry of every key that is not
    equal to [x] is as it was; and the dictionary has one entry more when
    [x] was not a key and as many as before when it was. *)
Theorem turn_assignments (x : Q) (a : req_data) (b : insertion_data)
    (result : Store) :
  dict_get x (set_insertion_data x b (set_req_data x a result))
  = Some (mkEntry (Some a) (Some b))
  ∧ (∀ y, ¬ (x == y)%Q →
       dict_get y (set_insertion_data x b (set_req_data x a result))
       = dict_get y result)
  ∧ length (set_insertion_data x b (set_req_data x a result))
    = match dict_get x result with
      | Some _ => length result
      | None => S (length result)
      end.
Proof.
  unfold set_insertion_data, set_req_data. split; [|split].
  - rewrite !dict_get_update_eq. reflexivity.
  - intros y Hne. rewrite !dict_get_update_ne by exact Hne. reflexivity.
  - rewrite dict_update_length, dict_get_update_eq, dict_update_length.
    reflexivity.
Qed.

End Properties.

(** * The properties at concrete inputs *)

(** The path of the street network of Göttingen, as the script builds it. *)
Lemma goe_path :
  "../data/homogenized_networks/" +:+ "goe" +:+ "/" +:+ "/G_homog.gpkl"
  = "../data/homogenized_networks/goe//G_homog.gpkl".
Proof. reflexivity. Qed.

(** C2, counterexample: the pickles of the six synthetic topologies are
    present and the street network of Göttingen is missing.  The script
    skips the six sweeps, announces Göttingen and ends with the
    [FileNotFoundError] of its graph file: Harz, Berlin and the
    coarse-grained Berlin networks, which come later in the list, are
    never started. *)
Lemma missing_street_network_ends_main :
  let r := main (module_globals unit_engine) (constant_world 0 synthetic_done) in
  r.2 = inl (FileNotFoundError "../data/homogenized_networks/goe//G_homog.gpkl")
  ∧ trace r.1
    = [EvPrint "doing ring10"; EvPrint "pickle exists, doing nothing";
       EvPrint "done ring10";
       EvPrint "doing ring100"; EvPrint "pickle exists, doing nothing";
       EvPrint "done ring100";
       EvPrint "doing line100"; EvPrint "pickle exists, doing nothing";
       EvPrint "done line100";
       EvPrint "doing star100"; EvPrint "pickle exists, doing nothing";
       EvPrint "done star100";
       EvPrint "doing grid100"; EvPrint "pickle exists, doing nothing";
       EvPrint "done grid100";
       EvPrint "doing trigrid13"; EvPrint "pickle exists, doing nothing";
       EvPrint "done trigrid13";
       EvPrint "doing Gö"].
Proof. split; vm_compute; reflexivity. Qed.

(** C2, witness: the same world, where the seventh experiment is the one
    that raises. *)
Lemma failure_ends_the_script_witness :
  main (module_globals unit_engine) (constant_world 0 synthetic_done)
  = ((experiment (module_globals unit_engine) "doing Gö" (street_network "goe")
        "../data/street_goe_homogenized.pkl" "novolcomp" "done Gö"
        (run_blocks (take 6 (experiments (module_globals unit_engine)))
           (constant_world 0 synthetic_done)).1).1,
     inl (FileNotFoundError "../data/homogenized_networks/goe//G_homog.gpkl")).
Proof.
  apply (failure_ends_the_script (module_globals unit_engine)
           (constant_world 0 synthetic_done)
           (take 6 (experiments (module_globals unit_engine)))
           (drop 7 (experiments (module_globals unit_engine)))).
  - reflexivity.
  - vm_compute. reflexivity.
  - vm_compute. reflexivity.
Defined.

(** C1, witness: the first experiment of the script on a fresh checkout. *)
Lemma fresh_sweep_raises_witness :
  simulate_different_request_rates (module_globals unit_engine)
    (cycle_graph 10) "../data/ring_10.pkl" "ring" (constant_world 0 ∅)
  = (logged (constant_world 0 ∅)
       [EvNetwork (cycle_graph 10) "ring"; EvAvgShortestPath (cycle_graph 10)],
     inl (NameError "simulate_simgle_request_rate")).
Proof.
  pose proof (fresh_sweep_raises unit_engine (cycle_graph 10)
                "../data/ring_10.pkl" "ring" (constant_world 0 ∅) eq_refl) as H.
  rewrite ring10_l_avg in H. exact H.
Defined.

(** C3, witness: the file left by a sweep that was interrupted after forty
    points is enough for the skip. *)
Lemma existing_pickle_is_skipped_witness :
  simulate_different_request_rates (repaired_globals unit_engine)
    (cycle_graph 10) "../data/ring_10.pkl" "ring"
    (constant_world 0 {["../data/ring_10.pkl" := FStore partial_store]})
  = (logged (constant_world 0 {["../data/ring_10.pkl" := FStore partial_store]})
       [EvPrint "pickle exists, doing nothing"],
     inr None).
Proof.
  apply (existing_pickle_is_skipped (repaired_globals unit_engine)).
  exists (FStore partial_store). reflexivity.
Defined.

(** C4, witness: the first turn of the loop of the ring of 10 nodes. *)
Lemma no_checkpoint_is_written_witness :
  fs (sweep_loop (module_globals unit_engine) (cycle_graph 10)
        (mkNetwork (cycle_graph 10) "ring") "ring" (250 # 90)
        "../data/ring_10.pkl" (take 1 x_range) [] (constant_world 0 ∅)).1
    !! "../data/ring_10.pkl" = None
  ∧ ((0 < 1)%nat →
     (sweep_loop (module_globals unit_engine) (cycle_graph 10)
        (mkNetwork (cycle_graph 10) "ring") "ring" (250 # 90)
        "../data/ring_10.pkl" (take 1 x_range) [] (constant_world 0 ∅)).2
     = inl (NameError "simulate_simgle_request_rate")).
Proof.
  exact (no_checkpoint_is_written unit_engine 1 (cycle_graph 10)
           (mkNetwork (cycle_graph 10) "ring") "ring" (250 # 90)
           "../data/ring_10.pkl" (constant_world 0 ∅) eq_refl).
Defined.

(** C6, counterexample: on the graph of one node a stream of one request
    at rate 1 raises the [ValueError] of [random.sample] at its first
    resumption, so it does not hold one request. *)
Lemma one_node_graph_has_no_stream :
  (req_generator_uniform one_node_graph 1 1 (constant_world 0 ∅)).2
  = inl (ValueError "Sample larger than population or is negative")
  ∧ ¬ ∃ w' reqs,
        req_generator_uniform one_node_graph 1 1 (constant_world 0 ∅)
        = (w', inr reqs)
        ∧ Z.of_nat (length reqs) = 1.
Proof.
  assert ((req_generator_uniform one_node_graph 1 1 (constant_world 0 ∅)).2
          = inl (ValueError "Sample larger than population or is negative"))
    as H by (vm_compute; reflexivity).
  split; [exact H|]. intros (w' & reqs & Hrun & _).
  rewrite Hrun in H. discriminate.
Qed.

(** C6, witness: three requests on the path of two nodes. *)
Lemma stream_has_count_requests_witness :
  ∃ w' reqs,
    req_generator_uniform (path_graph 2) 3 1 (constant_world 0 ∅) = (w', inr reqs)
    ∧ Z.of_nat (length reqs) = 3
    ∧ sequence_index <$> reqs = seqZ 1 3.
Proof.
  apply (stream_has_count_requests (path_graph 2) 3 1 (constant_world 0 ∅)).
  - left. vm_compute. lia.
  - lia.
  - reflexivity.
Defined.

(** C7, counterexample: in binary64, on the path of two nodes at rate 1,
    the first inter-arrival time is 500000 and the second is 1e-11, which
    is positive; the sum 500000 + 1e-11 rounds to 500000, so the second
    request arrives at the time of the first and the arrival times do not
    increase strictly. *)
Lemma absorbed_draw_repeats_arrival_time :
  (req_generator_uniform (path_graph 2) 2 1 absorbing_world).2
  = inr [mkRequest 1 500000 (NInt 0) (NInt 1);
         mkRequest 2 500000 (NInt 0) (NInt 1)]
  ∧ (0 < inter_arrival 1 absorbing_world 1)%Q
  ∧ ¬ (arrival_time (mkRequest 1 500000 (NInt 0) (NInt 1))
       < arrival_time (mkRequest 2 500000 (NInt 0) (NInt 1)))%Q.
Proof.
  split; [vm_compute; reflexivity|]. split; [vm_compute; reflexivity|].
  intros H. vm_compute in H. discriminate.
Qed.

(** C7, witness: three requests on the path of two nodes at rate 1 in
    binary64, with the inter-arrival times 500000, 1e-11 and 1e-11: every
    arrival time is the rounded running sum, and the times do not
    decrease. *)
Lemma arrival_times_are_running_sums_witness :
  (req_generator_uniform (path_graph 2) 3 1 absorbing_world).2
  = inr [mkRequest 1 500000 (NInt 0) (NInt 1);
         mkRequest 2 500000 (NInt 0) (NInt 1);
         mkRequest 3 500000 (NInt 0) (NInt 1)]
  ∧ (∀ (i : nat) (r : Request),
       [mkRequest 1 500000 (NInt 0) (NInt 1);
        mkRequest 2 500000 (NInt 0) (NInt 1);
        mkRequest 3 500000 (NInt 0) (NInt 1)] !! i = Some r →
       arrival_time r
       = running_sum_from (fround b64) (inter_arrival 1 absorbing_world) 0 (S i))
  ∧ (∀ (i j : nat) (r r' : Request), (i < j)%nat →
       [mkRequest 1 500000 (NInt 0) (NInt 1);
        mkRequest 2 500000 (NInt 0) (NInt 1);
        mkRequest 3 500000 (NInt 0) (NInt 1)] !! i = Some r →
       [mkRequest 1 500000 (NInt 0) (NInt 1);
        mkRequest 2 500000 (NInt 0) (NInt 1);
        mkRequest 3 500000 (NInt 0) (NInt 1)] !! j = Some r' →
       (arrival_time r <= arrival_time r')%Q).
Proof.
  split; [vm_compute; reflexivity|].
  apply (arrival_times_are_running_sums (path_graph 2) 3 1 absorbing_world
           (req_generator_uniform (path_graph 2) 3 1 absorbing_world).1).
  - exact b64_rounding_ok.
  - reflexivity.
  - apply run_with_value. vm_compute. reflexivity.
Defined.

(** C9, witness: the first experiment of the script on a fresh checkout. *)
Lemma ring10_sweep_never_reaches_the_engine_witness :
  average_shortest_path_length (cycle_graph 10) = inr (250 # 90)
  ∧ (250 # 90 == 25 # 9)%Q
  ∧ (Qabs (b64 (250 # 90) - (2778 # 1000)) < 1 # 1000)%Q
  ∧ x_range !! 0%nat = Some (b64 (1 # 10))
  ∧ (Qabs (normalize b64 (b64 (1 # 10)) (b64 (250 # 90)) - (18 # 1000))
       < 1 # 1000000)%Q
  ∧ simulate_different_request_rates (module_globals unit_engine)
      (cycle_graph 10) "../data/ring_10.pkl" "ring" (constant_world 0 ∅)
    = (logged (constant_world 0 ∅)
         [EvNetwork (cycle_graph 10) "ring"; EvAvgShortestPath (cycle_graph 10)],
       inl (NameError "simulate_simgle_request_rate"))
  ∧ main (module_globals unit_engine) (constant_world 0 ∅)
    = (logged (constant_world 0 ∅)
         [EvPrint "doing ring10"; EvNetwork (cycle_graph 10) "ring";
          EvAvgShortestPath (cycle_graph 10)],
       inl (NameError "simulate_simgle_request_rate")).
Proof.
  apply (ring10_sweep_never_reaches_the_engine unit_engine (constant_world 0 ∅)).
  reflexivity.
Defined.



(** C8, witness: the pair of nodes comes again on the star, and the sample
    that has the hub of the star as origin and the leaf 1 as destination. *)
Lemma origin_and_destination_are_sampled_witness :
  (∃ (w' : @World unit unit) (r1 r2 : Request),
     req_generator_uniform (star_graph 100) 2 1 alternating_world
     = (w', inr [r1; r2])
     ∧ origin r1 = origin r2 ∧ destination r1 = destination r2)
  ∧ ∃ j1 j2 : nat,
      (j1 < length (nodes (star_graph 100)))%nat
      ∧ (j2 < length (nodes (star_graph 100)))%nat ∧ j1 ≠ j2
      ∧ ∀ (w : @World unit unit) (r : nat),
          (r ≤ patience)%nat →
          (∀ i, (1 ≤ i ≤ r)%nat →
             draw_at (length (nodes (star_graph 100))) w i
             = draw_at (length (nodes (star_graph 100))) w 0) →
          draw_at (length (nodes (star_graph 100))) w (S r)
          ≠ draw_at (length (nodes (star_graph 100))) w 0 →
          (random_sample (nodes (star_graph 100)) 2 w).1 = drawn w (2 + r) 0
          ∧ ((random_sample (nodes (star_graph 100)) 2 w).2
             = inr [NInt 0; NInt 1]
             ↔ draw_at (length (nodes (star_graph 100))) w 0 = j1
               ∧ draw_at (length (nodes (star_graph 100))) w (S r) = j2).
Proof.
  destruct (@origin_and_destination_are_sampled unit unit)
    as (_ & Hrecur & _ & Hlarge & _).
  split.
  - apply Hrecur. vm_compute. lia.
  - apply Hlarge.
    + vm_compute. lia.
    + apply (bool_decide_unpack _). vm_compute. exact I.
    + apply (bool_decide_unpack _). vm_compute. exact I.
    + discriminate.
Defined.


(** X2, witness: a count of -5 on the empty graph at rate 0. *)
Lemma nonpositive_count_gives_empty_stream_witness :
  req_generator_uniform ∅ (-5) 0 (constant_world 0 ∅) = (constant_world 0 ∅, inr []).
Proof.
  apply (nonpositive_count_gives_empty_stream ∅ (-5) 0 (constant_world 0 ∅)). lia.
Defined.

(** X3, witness: the 10000 requests of a sweep on the empty graph. *)
Lemma small_graph_stream_raises_witness :
  req_generator_uniform ∅ 10000 1 (constant_world 0 ∅)
  = (constant_world 0 ∅,
     inl (ValueError "Sample larger than population or is negative")).
Proof.
  apply (small_graph_stream_raises ∅ 10000 1 (constant_world 0 ∅)).
  - vm_compute. lia.
  - lia.
Defined.

(** X4, witness: the rate -1 on the path of two nodes. *)
Lemma negative_rate_stream_raises_witness :
  ∃ a : nat,
    (2 ≤ a)%nat ∧ ((length (nodes (path_graph 2)) ≤ setsize)%nat → a = 2%nat)
    ∧ req_generator_uniform (path_graph 2) 1 (-1) (constant_world 0 ∅)
      = (drawn (constant_world 0 ∅) a 0, inl (ValueError "scale < 0")).
Proof.
  apply (negative_rate_stream_raises (path_graph 2) 1 (-1) (constant_world 0 ∅)).
  - vm_compute. lia.
  - lia.
  - vm_compute. reflexivity.
Defined.

(** X5, witness: three requests on the path of two nodes. *)
Lemma stream_draws_are_counted_witness :
  ∃ (a : nat) (reqs : list Request),
    req_generator_uniform (path_graph 2) 3 1 (constant_world 0 ∅)
    = (drawn (constant_world 0 ∅) a (Z.to_nat 3), inr reqs)
    ∧ (2 * Z.to_nat 3 ≤ a)%nat
    ∧ ((length (nodes (path_graph 2)) ≤ setsize)%nat → a = (2 * Z.to_nat 3)%nat)
    ∧ length reqs = Z.to_nat 3.
Proof.
  apply (stream_draws_are_counted (path_graph 2) 3 1 (constant_world 0 ∅)).
  - vm_compute. lia.
  - reflexivity.
Defined.

(** X7, witness: the first sweep value on the ring of 10 nodes. *)
Lemma single_rate_run_witness :
  ∃ (start : node) (reqs : list Request) (a : nat),
    nodes (cycle_graph 10)
      !! draw_at (length (nodes (cycle_graph 10))) (constant_world 3 ∅) 0
    = Some start
    ∧ Z.of_nat (length reqs) = 10000
    ∧ (2 * Z.to_nat 10000 ≤ a)%nat
    ∧ ((length (nodes (cycle_graph 10)) ≤ setsize)%nat
       → a = (2 * Z.to_nat 10000)%nat)
    ∧ simulate_single_request_rate unit_engine (cycle_graph 10)
        (mkNetwork (cycle_graph 10) "ring") (b64 (1 # 10)) "ring"
        (b64 (250 # 90)) (constant_world 3 ∅)
      = (logged (drawn (constant_world 3 ∅) (1 + a) (Z.to_nat 10000))
           [EvZeroDetourBus (mkNetwork (cycle_graph 10) "ring") (cycle_graph 10)
              10000
              (normalize (round (constant_world 3 ∅)) (b64 (1 # 10))
                         (b64 (250 # 90)))
              "ring" start;
            EvPrintSimulating (b64 (1 # 10)); EvSimulateAll reqs],
         inr (unit_engine (mkNetwork (cycle_graph 10) "ring") reqs "ring" start)).
Proof.
  apply (single_rate_run unit_engine (cycle_graph 10)
           (mkNetwork (cycle_graph 10) "ring") (b64 (1 # 10)) "ring"
           (b64 (250 # 90)) (constant_world 3 ∅)).
  - vm_compute. lia.
  - vm_compute. reflexivity.
Defined.

(** X8, witness: the empty graph and the graph of one node, for the average
    shortest path length of the ring of 10 nodes. *)
Lemma single_rate_on_small_graphs_witness :
  simulate_single_request_rate unit_engine ∅ (mkNetwork ∅ "ring") 1 "ring"
    (b64 (250 # 90)) (constant_world 0 ∅)
  = (constant_world 0 ∅,
     inl (ValueError "Sample larger than population or is negative"))
  ∧ simulate_single_request_rate unit_engine one_node_graph
      (mkNetwork one_node_graph "ring") 1 "ring" (b64 (250 # 90))
      (constant_world 0 ∅)
    = (logged (drawn (constant_world 0 ∅) 1 0)
         [EvZeroDetourBus (mkNetwork one_node_graph "ring") one_node_graph 10000
            (normalize (round (constant_world 0 ∅)) 1 (b64 (250 # 90)))
            "ring" (NInt 0);
          EvPrintSimulating 1],
       inl (ValueError "Sample larger than population or is negative")).
Proof.
  split.
  - apply (single_rate_on_small_graphs unit_engine ∅ (mkNetwork ∅ "ring") 1
             "ring" (b64 (250 # 90)) (constant_world 0 ∅));
      [vm_compute; discriminate | reflexivity].
  - apply (single_rate_on_small_graphs unit_engine one_node_graph
             (mkNetwork one_node_graph "ring") 1 "ring" (b64 (250 # 90))
             (constant_world 0 ∅));
      [vm_compute; discriminate | reflexivity].
Defined.

(** X9, witness: two nodes without an edge, with the name of the callee
    repaired. *)
Lemma undefined_l_avg_ends_sweep_witness :
  simulate_different_request_rates (repaired_globals unit_engine)
    two_isolated_nodes "../data/two.pkl" "novolcomp" (constant_world 0 ∅)
  = (logged (constant_world 0 ∅)
       [EvNetwork two_isolated_nodes "novolcomp";
        EvAvgShortestPath two_isolated_nodes],
     inl (NetworkXError "Graph is not connected.")).
Proof.
  apply (undefined_l_avg_ends_sweep (repaired_globals unit_engine)
           two_isolated_nodes "../data/two.pkl" "novolcomp" (constant_world 0 ∅)).
  - reflexivity.
  - vm_compute. reflexivity.
Defined.

(** X10, witness: the sweep of the ring of 10 nodes leaves the pickle of
    the star alone. *)
Lemma sweep_touches_only_its_pickle_witness :
  fs (simulate_different_request_rates (module_globals unit_engine)
        (cycle_graph 10) "../data/ring_10.pkl" "ring"
        (constant_world 0 {["../data/star_100.pkl" := FStore partial_store]})).1
    !! "../data/star_100.pkl"
  = fs (constant_world 0 {["../data/star_100.pkl" := FStore partial_store]})
      !! "../data/star_100.pkl".
Proof.
  apply (sweep_touches_only_its_pickle unit_engine (module_globals unit_engine)).
  - left. reflexivity.
  - discriminate.
Defined.

(** X11, witness: the experiment of Göttingen when its pickle exists and
    its graph file does not. *)
Lemma missing_graph_file_ends_experiment_witness :
  experiment (module_globals unit_engine) "doing Gö" (street_network "goe")
    "../data/street_goe_homogenized.pkl" "novolcomp" "done Gö"
    (constant_world 0
       {["../data/street_goe_homogenized.pkl" := FStore partial_store]})
  = (logged (constant_world 0
               {["../data/street_goe_homogenized.pkl" := FStore partial_store]})
       [EvPrint "doing Gö"],
     inl (FileNotFoundError (street_graph_path "goe"))).
Proof.
  apply (missing_graph_file_ends_experiment (module_globals unit_engine)).
  reflexivity.
Defined.




(** X19, witness: the sweep of the ring of 10 nodes, with a callee that
    answers at once, when no path can be written. *)
Lemma unwritable_path_ends_sweep_witness :
  simulate_different_request_rates instant_globals (cycle_graph 10)
    "../data/ring_10.pkl" "ring" locked_world
  = (logged locked_world
       [EvNetwork (cycle_graph 10) "ring"; EvAvgShortestPath (cycle_graph 10)],
     inl (FileNotFoundError "../data/ring_10.pkl")).
Proof.
  apply (unwritable_path_ends_sweep instant_globals instant_callee
           (cycle_graph 10) "../data/ring_10.pkl" "ring" (250 # 90)
           locked_world _ (b64 (1 # 10)) (drop 1 x_range) ((), ())).
  - reflexivity.
  - exact ring10_l_avg.
  - vm_compute. reflexivity.
  - reflexivity.
  - reflexivity.
  - reflexivity.
Defined.

(** X14, witness: the files after a full run. *)
Lemma rerun_over_complete_data_witness :
  main (module_globals unit_engine) (constant_world 0 complete_files)
  = (logged (constant_world 0 complete_files) rerun_messages, inr ()).
Proof.
  apply (rerun_over_complete_data (module_globals unit_engine)
           (constant_world 0 complete_files)
           {[200 := list_to_map ((λ t, (t, path_graph 2)) <$> [400; 600; 800])]}).
  - apply (bool_decide_unpack _). vm_compute. exact I.
  - repeat constructor; exists (path_graph 2); vm_compute; reflexivity.
  - vm_compute. reflexivity.
  - apply (bool_decide_unpack _). vm_compute. exact I.
Defined.

(** X15, witness: no file at all, and a file without any graph. *)
Lemma many_berlins_errors_witness :
  many_berlins (module_globals unit_engine) (constant_world 0 ∅)
  = (constant_world 0 ∅, inl (FileNotFoundError all_berlin_path))
  ∧ many_berlins (module_globals unit_engine)
      (constant_world 0 {[all_berlin_path := FAllGs ∅]})
    = (logged (constant_world 0 {[all_berlin_path := FAllGs ∅]})
         [EvPrint "Doing Berlin 200 400"],
       inl KeyError).
Proof.
  split.
  - apply (many_berlins_errors (module_globals unit_engine) (constant_world 0 ∅)).
    reflexivity.
  - apply (many_berlins_errors (module_globals unit_engine)
             (constant_world 0 {[all_berlin_path := FAllGs ∅]})) with (all_Gs := ∅);
      reflexivity.
Defined.

